(** * redgifs_content_grabber: link partitioning, file-name derivation,
      retrying fetch and file saving

    A shallow embedding of [redgifs_content_grabber.py].  Python strings are
    modelled as [string], read as sequences of characters with code points
    below 256, the set of captured
    links as a [gset string], the output directory as a [gmap] from paths to
    file contents, and the statement sequences of [save_file] and
    [safely_request_content] as programs in a state-and-exception monad over a
    [world] record. *)

From Stdlib Require Import String Ascii List ZArith QArith Lia.
From stdpp Require Import gmap strings list.

Open Scope string_scope.
Open Scope nat_scope.
Open Scope list_scope.

Set Warnings "-clear-no-such-hyp".

(** ** Python string primitives used by the program *)

Module PyStr.

(** [s.split(sep)] for a one-character separator: the pieces between the
    occurrences of [sep]; always at least one piece. *)
Fixpoint split (sep : ascii) (s : string) : list string :=
  match s with
  | EmptyString => [EmptyString]
  | String c r =>
      if Ascii.eqb c sep then EmptyString :: split sep r
      else match split sep r with
           | [] => [String c EmptyString]
           | p :: ps => String c p :: ps
           end
  end.

(** [s.replace(old, new)] for a non-empty [old]: occurrences are replaced
    from left to right without overlap.  [skip] counts the characters of a
    match that are still to be consumed. *)
Fixpoint replace_from (skip : nat) (old new s : string) : string :=
  match s with
  | EmptyString => EmptyString
  | String c r =>
      match skip with
      | S k => replace_from k old new r
      | O =>
          if String.prefix old s
          then new +:+ replace_from (String.length old - 1) old new r
          else String c (replace_from 0 old new r)
      end
  end.

Definition replace (old new s : string) : string := replace_from 0 old new s.

(** [sub in s] *)
Fixpoint contains (sub s : string) : bool :=
  String.prefix sub s ||
  match s with
  | EmptyString => false
  | String _ r => contains sub r
  end.

(** [s.lower()]: among the characters with code points below 256 the
    upper-case letters are A-Z (65-90), the accented capitals from 192 to
    214 and those from 216 to 222; each lies 32 below its lower-case form.
    All other characters are left as they are. *)
Definition lower_char (c : ascii) : ascii :=
  let n := nat_of_ascii c in
  if ((65 <=? n)%nat && (n <=? 90)%nat)
     || ((192 <=? n)%nat && (n <=? 222)%nat && negb (n =? 215)%nat)
  then ascii_of_nat (n + 32) else c.

Fixpoint lower (s : string) : string :=
  match s with
  | EmptyString => EmptyString
  | String c r => String (lower_char c) (lower r)
  end.

(** [parts[-1]] and [parts[0]]; [split] never returns the empty list, so the
    default is never used by the program. *)
Definition last_part (parts : list string) : string := List.last parts "".
Definition first_part (parts : list string) : string := List.hd "" parts.

End PyStr.

(** ** File-name derivation *)

(** [build_real_url] *)
Definition build_real_url (file_name : string) : string :=
  "https://api.redgifs.com/v2/gifs/" +:+ PyStr.lower file_name
    +:+ "/files/" +:+ file_name +:+ ".mp4".

(** [extract_file_name] *)
Definition extract_file_name (url : string) : string :=
  let name_parts := PyStr.split "/" url in
  if (1 <? length name_parts)%nat then
    let name := PyStr.first_part (PyStr.split "?" (PyStr.last_part name_parts)) in
    let name := PyStr.first_part (PyStr.split "#" name) in
    let name := PyStr.replace "-mobile" "" name in
    let name := PyStr.replace "-silent" "" name in
    let name := PyStr.replace "-large" "" name in
    PyStr.first_part (PyStr.split "." name)
  else "ERROR".

(** The first statements of [save_file] (up to the assignment of [file_path]):
    the file name, the URL to download from and the output path, for a run in
    mode [mode] with output directory [output_dir]. *)
Record target := Target {
  file_name : string;
  true_url : string;
  file_path : string
}.

Definition save_file_target (mode output_dir input_ : string) : target :=
  let file_name := if bool_decide (mode = "s") then input_
                   else extract_file_name input_ in
  let '(true_url, file_name) :=
    if PyStr.contains ".jpg" input_
    then (input_, file_name +:+ ".jpg")
    else (build_real_url file_name, file_name +:+ ".mp4") in
  Target file_name true_url (output_dir +:+ "/" +:+ file_name).

(** ** Exceptions and outcomes *)

Inductive exn :=
| RequestException
| OSError
| TypeError
| ZeroDivisionError
| OtherException.

Global Instance exn_eq_dec : EqDecision exn.
Proof. solve_decision. Defined.

Inductive result (A : Type) :=
| Returns (a : A)
| Raises (e : exn).
Arguments Returns {A} a.
Arguments Raises {A} e.

(** ** The batch partitioner *)

Definition THREADS_TO_USE : nat := 10.
Definition MAX_REQUEST_RETRIES : nat := 5.

(** [math.ceil(a / b)] for [b > 0].  The program divides as floats; for
    [a < 2^53] the ceiling of the float quotient is the integer ceiling. *)
Definition ceil_div (a b : nat) : nat := (a + b - 1) / b.

Section Partitioner.

(** [set.pop()] removes an element the caller does not choose; [pick] is
    that choice. *)
Variable pick : gset string → string.

(** [captured_links.pop()], called on non-empty sets only (every call is
    guarded by [len(captured_links) > 0]). *)
Definition set_pop (s : gset string) : string * gset string :=
  (pick s, s ∖ {[pick s]}).

(** [[captured_links.pop() for _ in range(n) if len(captured_links) > 0]] *)
Fixpoint pop_batch (n : nat) (s : gset string) : list string * gset string :=
  match n with
  | O => ([], s)
  | S n' =>
      if bool_decide (0 < size s) then
        let '(x, s1) := set_pop s in
        let '(xs, s2) := pop_batch n' s1 in
        (x :: xs, s2)
      else pop_batch n' s
  end.

(** The [while len(captured_links) > 0] loop; [None] when the loop is still
    running after [fuel] iterations. *)
Fixpoint drain (fuel file_batch_size : nat) (s : gset string)
    (batches : list (list string)) : option (list (list string) * gset string) :=
  if bool_decide (0 < size s) then
    match fuel with
    | O => None
    | S fuel' =>
        let '(b, s') := pop_batch file_batch_size s in
        drain fuel' file_batch_size s' (batches ++ [b])
    end
  else Some (batches, s).

(** [get_captured_links_batches], with the thread count as a parameter; the
    second component is [captured_links] after the call. *)
Definition get_captured_links_batches (fuel threads_to_use : nat)
    (captured_links : gset string)
    : option (result (list (list string)) * gset string) :=
  if (threads_to_use =? 0)%nat then Some (Raises ZeroDivisionError, captured_links)
  else
    let file_batch_size := ceil_div (size captured_links) threads_to_use in
    match drain fuel file_batch_size captured_links [] with
    | Some (batches, s) => Some (Returns batches, s)
    | None => None
    end.

End Partitioner.

(** A concrete [set.pop()]: the first element in the order of [elements]. *)
Definition pick_first (s : gset string) : string := List.hd "" (elements s).

(** Batches share no element. *)
Definition pairwise_disjoint (batches : list (list string)) : Prop :=
  ∀ i j bi bj, i ≠ j → batches !! i = Some bi → batches !! j = Some bj →
    ∀ x, x ∈ bi → x ∉ bj.

(** The number of batches of a given size. *)
Definition count_size (n : nat) (batches : list (list string)) : nat :=
  length (filter (λ b, length b = n) batches).

(** ** The world the downloader runs in *)

(** What [safely_request_content] hands to [file.write]: the initial value of
    [content] is the text string [""], a response body is a byte string. *)
Inductive payload :=
| StrVal (s : string)
| BytesVal (b : list Byte.byte).

Definition payload_len (p : payload) : nat :=
  match p with
  | StrVal s => String.length s
  | BytesVal b => length b
  end.

(** What one call of [requests.get] does. *)
Inductive get_outcome :=
| Response (status_code : nat) (content : list Byte.byte)
| GetRaises (e : exn).

(** Configuration ([args.mode], [OUTPUT_DIR]) and the behaviour of the outside
    world: the answer to the [i]-th GET of the run, whether opening a path
    or writing bytes to it fails with [OSError] in a given state of the
    directory, and the size of the write buffer that [open] gives a binary
    file on this platform. *)
Record env := Env {
  mode : string;
  OUTPUT_DIR : string;
  http_get : nat → string → get_outcome;
  open_error : gmap string (list Byte.byte) → string → bool;
  write_error : gmap string (list Byte.byte) → string → bool;
  buffer_size : nat
}.

(** The mutable state: files on disk, the global list
    [downloaded_files_sizes_mb], and the URLs requested so far. *)
Record world := World {
  files : gmap string (list Byte.byte);
  downloaded_files_sizes_mb : list Q;
  requests_sent : list string
}.

Definition set_file (path : string) (data : list Byte.byte) (w : world) : world :=
  World (<[path := data]> (files w)) (downloaded_files_sizes_mb w) (requests_sent w).

Definition add_size (mb : Q) (w : world) : world :=
  World (files w) (downloaded_files_sizes_mb w ++ [mb]) (requests_sent w).

Definition add_request (url : string) (w : world) : world :=
  World (files w) (downloaded_files_sizes_mb w) (requests_sent w ++ [url]).

(** Programs: state passing with exceptions. *)
Definition prog (A : Type) : Type := world → result A * world.

Global Instance prog_ret : MRet prog := λ A a w, (Returns a, w).

Global Instance prog_bind : MBind prog := λ A B f m w,
  match m w with
  | (Returns a, w') => f a w'
  | (Raises e, w') => (Raises e, w')
  end.

Definition raise {A : Type} (e : exn) : prog A := λ w, (Raises e, w).

(** [try: body  except e: handler] *)
Definition try_except {A : Type} (body : prog A) (e : exn) (handler : prog A)
    : prog A := λ w,
  match body w with
  | (Returns a, w') => (Returns a, w')
  | (Raises e', w') => if bool_decide (e' = e) then handler w' else (Raises e', w')
  end.

(** Inside the [try] block of [save_file] two more things change: the write
    buffer of the open file and the local variable [is_successful].
    Programs over them keep both when an exception is raised, since the
    handler and the [return] after it read [is_successful]. *)
Record locals := Locals {
  buffer : list Byte.byte;
  is_successful : bool
}.

Definition lprog (A : Type) : Type := locals → world → result A * locals * world.

Global Instance lprog_ret : MRet lprog := λ A a l w, (Returns a, l, w).

Global Instance lprog_bind : MBind lprog := λ A B f m l w,
  match m l w with
  | (Returns a, l', w') => f a l' w'
  | (Raises e, l', w') => (Raises e, l', w')
  end.

Definition lift {A : Type} (m : prog A) : lprog A := λ l w,
  let '(r, w') := m w in (r, l, w').

Definition lraise {A : Type} (e : exn) : lprog A := λ l w, (Raises e, l, w).

Definition set_buffer (data : list Byte.byte) : lprog unit := λ l w,
  (Returns (), Locals data (is_successful l), w).

Definition set_is_successful (v : bool) : lprog unit := λ l w,
  (Returns (), Locals (buffer l) v, w).

Definition try_except_l {A : Type} (body : lprog A) (e : exn)
    (handler : lprog A) : lprog A := λ l w,
  match body l w with
  | (Returns a, l', w') => (Returns a, l', w')
  | (Raises e', l', w') =>
      if bool_decide (e' = e) then handler l' w' else (Raises e', l', w')
  end.

Section Downloader.

Variable E : env.

(** [requests.get(url).content] *)
Definition requests_get (url : string) : prog (list Byte.byte) := λ w,
  match http_get E (length (requests_sent w)) url with
  | Response _ body => (Returns body, add_request url w)
  | GetRaises e => (Raises e, add_request url w)
  end.

(** The [for _ in range(n)] loop of [safely_request_content], with its two
    local variables. *)
Fixpoint request_loop (n : nat) (url : string) (successful : bool)
    (content : payload) : prog payload :=
  match n with
  | O => mret content
  | S n' =>
      if successful then mret content
      else
        '(successful, content) ←
          try_except
            (body ← requests_get url; mret (true, BytesVal body))
            RequestException
            (mret (successful, content));
        request_loop n' url successful content
  end.

(** [safely_request_content] *)
Definition safely_request_content (url : string) : prog payload :=
  request_loop MAX_REQUEST_RETRIES url false (StrVal "").

(** [is_duplicate] *)
Definition is_duplicate (file_path : string) : prog bool := λ w,
  (Returns (bool_decide (is_Some (files w !! file_path))), w).

(** [open(file_path, "wb")]: creates or truncates the file; the file
    object starts with an empty buffer. *)
Definition open_wb (file_path : string) : lprog unit := λ l w,
  if open_error E (files w) file_path then (Raises OSError, l, w)
  else (Returns (), Locals [] (is_successful l), set_file file_path [] w).

(** One write of the operating system at the end of the file, taken as all
    or nothing. *)
Definition raw_write (file_path : string) (data : list Byte.byte) : lprog unit :=
  λ l w,
  if write_error E (files w) file_path then (Raises OSError, l, w)
  else (Returns (), l,
        set_file file_path (default [] (files w !! file_path) ++ data) w).

(** Flushing the buffer of the open file. *)
Definition flush (file_path : string) : lprog unit := λ l w,
  match buffer l with
  | [] => (Returns (), l, w)
  | data => (raw_write file_path data;; set_buffer []) l w
  end.

(** [file.write(data)] on the buffered binary file.  A text string is
    rejected with [TypeError].  Bytes that fit the free part of the buffer
    are only kept there; otherwise the buffer is flushed first, and then
    data longer than the buffer go to the file, shorter data into the
    buffer. *)
Definition file_write (file_path : string) (data : payload) : lprog unit :=
  match data with
  | StrVal _ => lraise TypeError
  | BytesVal b => λ l w,
      if (length (buffer l) + length b <=? buffer_size E)%nat
      then set_buffer (buffer l ++ b) l w
      else (flush file_path;;
            if (buffer_size E <? length b)%nat then raw_write file_path b
            else set_buffer b) l w
  end.

(** [with open(file_path, "wb") as file: body].  Leaving the block closes
    the file, which flushes the buffer; what the block returned or raised is
    passed on unless closing itself fails. *)
Definition with_open_wb {A : Type} (file_path : string) (body : lprog A)
    : lprog A :=
  open_wb file_path ≫= λ _ : unit,
  (λ l w,
    match body l w with
    | (r, l1, w1) =>
        match flush file_path l1 w1 with
        | (Returns _, l2, w2) => (r, l2, w2)
        | (Raises e, l2, w2) => (Raises e, l2, w2)
        end
    end) : lprog A.

(** [os.path.getsize(file_path)] *)
Definition getsize (file_path : string) : prog nat := λ w,
  match files w !! file_path with
  | Some data => (Returns (length data), w)
  | None => (Raises OSError, w)
  end.

(** [downloaded_files_sizes_mb.append(size / 1024 ** 2)] *)
Definition append_size_mb (size : nat) : prog unit := λ w,
  (Returns (), add_size (Z.of_nat size # 1048576) w).

(** The body of the [with] block of [save_file]. *)
Definition save_file_body (t : target) : lprog unit :=
  content ← lift (safely_request_content (true_url t));
  file_write (file_path t) content;;
  size ← lift (getsize (file_path t));
  lift (append_size_mb size);;
  set_is_successful true.

(** [save_file]; log lines are not part of the state.  [is_successful]
    starts as [False] and is what the function returns, also after the
    [except OSError] clause has run. *)
Definition save_file (input_ : string) : prog bool :=
  let t := save_file_target (mode E) (OUTPUT_DIR E) input_ in
  is_duplicate (file_path t) ≫= λ dup : bool,
  if dup then mret false
  else
    (λ w,
      match
        try_except_l (with_open_wb (file_path t) (save_file_body t))
                     OSError (mret () : lprog unit)
                     (Locals [] false) w
      with
      | (Returns _, l, w') => (Returns (is_successful l), w')
      | (Raises e, _, w') => (Raises e, w')
      end) : prog bool.

(** The body of a worker thread: [[save_file(f) for f in files]]. *)
Fixpoint worker (batch : list string) : prog (list bool) :=
  match batch with
  | [] => mret []
  | f :: rest =>
      ok ← save_file f;
      oks ← worker rest;
      mret (ok :: oks)
  end.

End Downloader.

(** The world after [n] more requests for [url]. *)
Definition after_requests (n : nat) (url : string) (w : world) : world :=
  World (files w) (downloaded_files_sizes_mb w)
        (requests_sent w ++ replicate n url).

(** ** Sample environments *)

(** [io.DEFAULT_BUFFER_SIZE] *)
Definition DEFAULT_BUFFER_SIZE : nat := 8 * 1024.

(** A transport that refuses every connection. *)
Definition env_offline : env :=
  Env "v" "out" (λ _ _, GetRaises RequestException) (λ _ _, false) (λ _ _, false)
      DEFAULT_BUFFER_SIZE.

(** A transport whose first two answers are connection errors and whose third
    is a 404 page. *)
Definition env_third_404 : env :=
  Env "v" "out"
      (λ i _, if (i <? 2)%nat then GetRaises RequestException
              else Response 404 [Byte.x6e; Byte.x6f])
      (λ _ _, false) (λ _ _, false) DEFAULT_BUFFER_SIZE.

Definition world0 : world := World ∅ [] [].

(** A healthy transport over a directory that cannot be written to. *)
Definition env_readonly : env :=
  Env "v" "out" (λ _ _, Response 200 [Byte.x6f; Byte.x6b])
      (λ _ _, true) (λ _ _, false) DEFAULT_BUFFER_SIZE.

(** A healthy transport over a full disk: files can be created but not
    written. *)
Definition env_disk_full : env :=
  Env "v" "out" (λ _ _, Response 200 [Byte.x6f; Byte.x6b])
      (λ _ _, false) (λ _ _, true) DEFAULT_BUFFER_SIZE.

(** A healthy transport over a healthy disk. *)
Definition env_healthy : env :=
  Env "v" "out" (λ _ _, Response 200 [Byte.x6f; Byte.x6b])
      (λ _ _, false) (λ _ _, false) DEFAULT_BUFFER_SIZE.

(** The same with a write buffer of one byte, so that the two-byte body is
    written through by [file.write], and over a full disk. *)
Definition env_tiny_buffer : env :=
  Env "v" "out" (λ _ _, Response 200 [Byte.x6f; Byte.x6b])
      (λ _ _, false) (λ _ _, false) 1.

Definition env_tiny_buffer_disk_full : env :=
  Env "v" "out" (λ _ _, Response 200 [Byte.x6f; Byte.x6b])
      (λ _ _, false) (λ _ _, true) 1.

Definition sample_link : string :=
  "https://thumbs.example.com/SomeId456-large#frag".

Definition sample_url : string :=
  "https://api.redgifs.com/v2/gifs/someid456/files/SomeId456.mp4".

(** The batch sizes for [m] links and batch size [b]: full batches, then the
    remainder if there is one. *)
Definition batch_sizes (m b : nat) : list nat :=
  replicate (m / b) b ++ (if (m mod b =? 0)%nat then [] else [m mod b]).

(** Twenty-three captured links. *)
Definition links23 : gset string :=
  list_to_set
    ["https://t.example.com/A01.jpg"; "https://t.example.com/A02.jpg";
     "https://t.example.com/A03.jpg"; "https://t.example.com/A04.jpg";
     "https://t.example.com/A05.jpg"; "https://t.example.com/A06.jpg";
     "https://t.example.com/A07.jpg"; "https://t.example.com/A08.jpg";
     "https://t.example.com/A09.jpg"; "https://t.example.com/A10.jpg";
     "https://t.example.com/A11.jpg"; "https://t.example.com/A12.jpg";
     "https://t.example.com/A13.jpg"; "https://t.example.com/A14.jpg";
     "https://t.example.com/A15.jpg"; "https://t.example.com/A16.jpg";
     "https://t.example.com/A17.jpg"; "https://t.example.com/A18.jpg";
     "https://t.example.com/A19.jpg"; "https://t.example.com/A20.jpg";
     "https://t.example.com/A21.jpg"; "https://t.example.com/A22.jpg";
     "https://t.example.com/A23.jpg"].

(** ** The output directory *)

(** The truth value of an optional string, as [if target:] and
    [identifier if identifier else ''] test it: [None] and the empty string
    are false. *)
Definition truthy (s : option string) : bool :=
  match s with
  | Some (String _ _) => true
  | _ => false
  end.

(** [get_identifier]; [target] is [args.target], which is [None] when the
    option is not given. *)
Definition get_identifier (target : option string) : option string :=
  if truthy target then
    let identifier_parts := PyStr.split "/" (default "" target) in
    if (1 <? length identifier_parts)%nat
    then Some (PyStr.first_part (PyStr.split "?" (PyStr.last_part identifier_parts)))
    else None
  else None.

(** The value [setup_output_directory] assigns to [OUTPUT_DIR], for
    [args.output = output]. *)
Definition setup_output_directory (output : string) (identifier : option string)
    : string :=
  output +:+ "/" +:+ (if truthy identifier then default "" identifier else "").

(** ** Content ids *)

(** A name without any of the characters that [extract_file_name] and the
    cue reader treat specially. *)
Definition plain_name (name : string) : bool :=
  forallb (λ c, negb (PyStr.contains (String c "") name))
          ["/"; "?"; "#"; "."; "-"]%char.

(** The size markers of thumbnail names. *)
Definition thumbnail_suffixes : list string := [""; "-mobile"; "-silent"; "-large"].

(** A transport whose first answer is a connection error and whose second
    fails with an exception that is no [RequestException]. *)
Definition env_broken : env :=
  Env "v" "out"
      (λ i _, if (i <? 1)%nat then GetRaises RequestException
              else GetRaises OtherException)
      (λ _ _, false) (λ _ _, false) DEFAULT_BUFFER_SIZE.

(** The number of [True] results of a worker. *)
Definition successes (oks : list bool) : nat :=
  length (filter (λ ok, ok = true) oks).

(** ** Links from the files of the output directory (mode "s") *)

(** [build_capture_links_from_cues]: the new value of [captured_links], for
    [listing] the names that [os.listdir(OUTPUT_DIR)] returns. *)
Definition build_capture_links_from_cues (listing : list string)
    (captured_links : gset string) : gset string :=
  captured_links ∪
  list_to_set ((λ file_name, PyStr.first_part (PyStr.split "-" file_name))
                 <$> listing).

(** ** Links from a text file (mode "f") *)

(** [s.split(sep)] for a separator of any positive length: occurrences are
    found from left to right without overlap.  [skip] counts the characters
    of a found separator that are still to be consumed. *)
Fixpoint split_str_from (skip : nat) (sep s : string) : list string :=
  match s with
  | EmptyString => [EmptyString]
  | String c r =>
      match skip with
      | S k => split_str_from k sep r
      | O =>
          if String.prefix sep s
          then EmptyString :: split_str_from (String.length sep - 1) sep r
          else match split_str_from 0 sep r with
               | [] => [String c EmptyString]
               | p :: ps => String c p :: ps
               end
      end
  end.

Definition split_str (sep s : string) : list string := split_str_from 0 sep s.

(** The list [preliminary_links] of [build_capture_links_from_text_file], for
    [text] the content of [input.txt]:
    [[f"https://www.{link}" for link in text.split("https://www.")][1:]]. *)
Definition preliminary_links (text : string) : list string :=
  tail ((λ link, "https://www." +:+ link) <$> split_str "https://www." text).


(** ** The capture stage: from the command line to [captured_links] *)

(** The command line, as [get_args] returns it. *)
Module Args.
Record t := Make {
  target : option string;
  output : string;
  headless : bool;
  mode : string
}.
End Args.

(** What lies outside the program during the capture stage.  A tile is a
    WebElement, identified by its element id: the test [t not in
    captured_tiles] compares these ids.  Starting the browser and the
    Selenium calls on a loaded page are taken to succeed, and every tile to
    have a thumbnail with a [src].
    - [get_error url]: [driver.get(url)] raises;
    - [find_tiles i]: the answer to the [i]-th call of
      [driver.find_elements(By.CLASS_NAME, "tile.isVideo")];
    - [thumbnail_src tile]: the [src] attribute of the thumbnail in [tile];
    - [screenshot tile path]: what [tile.screenshot(path)] does to the files;
    - [makedirs_error dir]: [os.makedirs(dir, exist_ok=True)] raises [OSError];
    - [listdir dir fs]: the names [os.listdir(dir)] returns;
    - [read_text data]: the text that reading a file with content [data]
      gives;
    - [find_meta content property]: [None] when
      [BeautifulSoup(content, "html.parser").find("meta", {"property":
      property})] finds no tag, otherwise the [content] attribute of the
      tag found, if it has one. *)
Record site := Site {
  get_error : option string → bool;
  find_tiles : nat → list nat;
  thumbnail_src : nat → string;
  screenshot : nat → string → gmap string (list Byte.byte)
               → gmap string (list Byte.byte);
  makedirs_error : string → bool;
  listdir : string → gmap string (list Byte.byte) → list string;
  read_text : list Byte.byte → string;
  find_meta : payload → string → option (option string)
}.

(** The globals of the program and the world around it: whether [driver]
    has been assigned, [captured_links], the number of tile queries made so
    far, and the downloader's world. *)
Record session := Session {
  driver : bool;
  captured_links : gset string;
  find_calls : nat;
  disk : world
}.

Definition session0 : session := Session false ∅ 0 world0.

Definition set_driver (s : session) : session :=
  Session true (captured_links s) (find_calls s) (disk s).

Definition add_link (link : string) (s : session) : session :=
  Session (driver s) ({[link]} ∪ captured_links s) (find_calls s) (disk s).

Definition set_links (links : gset string) (s : session) : session :=
  Session (driver s) links (find_calls s) (disk s).

Definition set_disk (w : world) (s : session) : session :=
  Session (driver s) (captured_links s) (find_calls s) w.

Definition set_files (fs : gmap string (list Byte.byte)) (s : session) : session :=
  set_disk (World fs (downloaded_files_sizes_mb (disk s)) (requests_sent (disk s))) s.

(** The exceptions that end the capture stage: the global [driver] read
    before any assignment, a meta tag without [content] attribute, a page
    that does not load, and whatever the downloader's layer raises. *)
Inductive crash :=
| NameError
| KeyError
| WebDriverException
| Escaped (e : exn).

Inductive outcome :=
| Done (s : session)
| Crashed (c : crash) (s : session).

Section Capture.

Variable web : site.
Variable E : env.
Variable a : Args.t.
Variable OUTPUT_DIR_ : string.

(** [webdriver_setup]: [driver] is assigned in the modes "v" and "p" only. *)
Definition webdriver_setup (s : session) : session :=
  if bool_decide (Args.mode a ∈ ["v"; "p"]) then set_driver s else s.

(** [driver.find_elements(By.CLASS_NAME, "tile.isVideo")] *)
Definition find_elements (s : session) : list nat * session :=
  (find_tiles web (find_calls s),
   Session (driver s) (captured_links s) (S (find_calls s)) (disk s)).

(** The body of [for tile in tiles_to_inspect]. *)
Definition inspect (s : session) (tile : nat) : session :=
  let src := thumbnail_src web tile in
  if bool_decide (Args.mode a = "p") then
    set_files
      (screenshot web tile
         (OUTPUT_DIR_ +:+ "/"
            +:+ PyStr.first_part (PyStr.split "?" (PyStr.last_part (PyStr.split "/" src)))
            +:+ ".png")
         (files (disk s))) s
  else add_link src s.

(** The [while len(captured_tiles) != len(video_tiles)] loop; [None] when
    it is still running after [fuel] rounds. *)
Fixpoint capture_loop (fuel : nat) (captured_tiles video_tiles : list nat)
    (s : session) : option session :=
  if (length captured_tiles =? length video_tiles)%nat then Some s
  else
    match fuel with
    | O => None
    | S fuel' =>
        let tiles_to_inspect :=
          filter (λ t, t ∉ captured_tiles) video_tiles in
        let s := foldl inspect s tiles_to_inspect in
        let captured_tiles := captured_tiles ++ tiles_to_inspect in
        let '(video_tiles, s) := find_elements s in
        capture_loop fuel' captured_tiles video_tiles s
    end.

(** [capture_content_links] *)
Definition capture_content_links (fuel : nat) (url : option string)
    (s : session) : option outcome :=
  if driver s then
    if get_error web url then Some (Crashed WebDriverException s)
    else
      let '(video_tiles, s) := find_elements s in
      match capture_loop fuel [] video_tiles s with
      | Some s' => Some (Done s')
      | None => None
      end
  else Some (Crashed NameError s).

(** The body of [for link in preliminary_links]. *)
Definition capture_true_link (link : string) (s : session) : outcome :=
  match safely_request_content E link (disk s) with
  | (Raises e, w) => Crashed (Escaped e) (set_disk w s)
  | (Returns content, w) =>
      let s := set_disk w s in
      let src :=
        match find_meta web content "og:video" with
        | Some tag => Some tag
        | None => find_meta web content "og:image:url"
        end in
      match src with
      | None => Done s
      | Some None => Crashed KeyError s
      | Some (Some link) => Done (add_link link s)
      end
  end.

Fixpoint capture_true_links (links : list string) (s : session) : outcome :=
  match links with
  | [] => Done s
  | link :: rest =>
      match capture_true_link link s with
      | Done s' => capture_true_links rest s'
      | Crashed c s' => Crashed c s'
      end
  end.

(** [build_capture_links_from_text_file]: a missing [input.txt] makes
    [open] fail with [FileNotFoundError], an [OSError]. *)
Definition build_capture_links_from_text_file (s : session) : outcome :=
  match files (disk s) !! (OUTPUT_DIR_ +:+ "/input.txt") with
  | None => Crashed (Escaped OSError) s
  | Some data => capture_true_links (preliminary_links (read_text web data)) s
  end.

End Capture.

(** [main] up to the call of [save_files]: the second component of a
    finished run is the value of [OUTPUT_DIR]. *)
Definition main_capture (web : site) (E : env) (fuel : nat) (a : Args.t)
    (s : session) : option (outcome * string) :=
  let s := webdriver_setup a s in
  let identifier := get_identifier (Args.target a) in
  let dir := setup_output_directory (Args.output a) identifier in
  if makedirs_error web dir then Some (Crashed (Escaped OSError) s, dir)
  else if bool_decide (Args.mode a = "f") then
    Some (build_capture_links_from_text_file web E dir s, dir)
  else if bool_decide (Args.mode a = "s") then
    Some (Done (set_links
                  (build_capture_links_from_cues
                     (listdir web dir (files (disk s))) (captured_links s)) s),
          dir)
  else
    match capture_content_links web a dir fuel (Args.target a) s with
    | Some o => Some (o, dir)
    | None => None
    end.

(** A page that answers the [i]-th tile query with [answers i]; tile [t]
    has the thumbnail "https://thumbs.example.com/T<t>-mobile.jpg" for a
    one-letter code of [t].  Nothing else fails, the directory listing and
    the pages fetched are empty. *)
Definition sample_site (answers : nat → list nat) : site :=
  Site (λ _, false) answers
       (λ t, "https://thumbs.example.com/T"
               +:+ String (ascii_of_nat (65 + t)) "-mobile.jpg")
       (λ _ path fs, <[path := []]> fs)
       (λ _, false) (λ _ _, []) (λ _, "") (λ _ _, None).

Definition sample_args (mode : string) : Args.t :=
  Args.Make (Some "https://www.redgifs.com/users/someone") "out" false mode.

(** A page with two tiles that are replaced by two others after the first
    pass, and a page that drops one of its two tiles after the first pass. *)
Definition site_replacing : site :=
  sample_site (λ i, if (i <? 1)%nat then [0; 1] else [5; 6]).

Definition site_shrinking : site :=
  sample_site (λ i, if (i <? 1)%nat then [0; 1] else [0]).

(** * Properties *)

(** ** String primitives and file names *)

Example split_slashes :
  PyStr.split "/" "https://a.b/c" = ["https:"; ""; "a.b"; "c"].
Proof. reflexivity. Qed.

Example split_empty : PyStr.split "/" "" = [""].
Proof. reflexivity. Qed.

Example replace_twice :
  PyStr.replace "-large" "" "a-large-b-large" = "a-b".
Proof. reflexivity. Qed.

Example lower_mixed : PyStr.lower "MyTag789" = "mytag789".
Proof. reflexivity. Qed.

Example extract_mobile :
  extract_file_name "https://thumbs.example.com/AbcXyz123-mobile.jpg?w=200"
  = "AbcXyz123".
Proof. reflexivity. Qed.

Example target_mode_s :
  save_file_target "s" "out" "MyTag789"
  = Target "MyTag789.mp4"
           "https://api.redgifs.com/v2/gifs/mytag789/files/MyTag789.mp4"
           "out/MyTag789.mp4".
Proof. reflexivity. Qed.

Lemma split_nonempty sep s : PyStr.split sep s ≠ [].
Proof.
  destruct s as [|c r]; simpl; [done|].
  destruct (Ascii.eqb c sep); [done|].
  by destruct (PyStr.split sep r).
Qed.

(** A string without the separator is its own single piece. *)
Lemma split_without_sep sep s :
  PyStr.contains (String sep "") s = false → PyStr.split sep s = [s].
Proof.
  induction s as [|c r IH]; simpl; [done|].
  destruct (Ascii.ascii_dec sep c) as [->|Hne]; [by destruct r|].
  simpl. intros Hr. rewrite (IH Hr).
  destruct (Ascii.eqb_spec c sep) as [->|_]; [done|reflexivity].
Qed.

(** C10: a link without any "/" gets the name "ERROR", so outside mode "s" all
    such links are saved under "ERROR.jpg" (when the link contains ".jpg") or
    "ERROR.mp4" (otherwise). *)
Theorem extract_file_name_no_slash (url : string) :
  PyStr.contains "/" url = false →
  extract_file_name url = "ERROR" ∧
  ∀ m out, m ≠ "s" →
    file_name (save_file_target m out url) =
      if PyStr.contains ".jpg" url then "ERROR.jpg" else "ERROR.mp4".
Proof.
  intros Hno.
  assert (Hname : extract_file_name url = "ERROR").
  { unfold extract_file_name. by rewrite (split_without_sep _ _ Hno). }
  split; [exact Hname|].
  intros m out Hm. unfold save_file_target.
  rewrite bool_decide_eq_false_2 by exact Hm. rewrite Hname.
  by destruct (PyStr.contains ".jpg" url).
Qed.

Lemma extract_file_name_no_slash_witness :
  PyStr.contains "/" "clip.jpg" = false ∧
  extract_file_name "clip.jpg" = "ERROR" ∧
  file_name (save_file_target "v" "out" "clip.jpg") = "ERROR.jpg" ∧
  file_name (save_file_target "v" "out" "other") = "ERROR.mp4".
Proof.
  split; [reflexivity|].
  split; [apply (extract_file_name_no_slash "clip.jpg"); reflexivity|].
  split.
  - apply (proj2 (extract_file_name_no_slash "clip.jpg" eq_refl) "v" "out").
    discriminate.
  - apply (proj2 (extract_file_name_no_slash "other" eq_refl) "v" "out").
    discriminate.
Defined.

(** C6: the two literal cases of file-name derivation.  The ".jpg" thumbnail
    link yields the id "AbcXyz123", is saved as "<dir>/AbcXyz123.jpg" and is
    downloaded from the link itself; the "-large#frag" link in mode "v" yields
    the id "SomeId456", the API URL built from it, and the file
    "SomeId456.mp4". *)
Theorem filename_derivation_cases (m out : string) :
  m ≠ "s" →
  extract_file_name "https://thumbs.example.com/AbcXyz123-mobile.jpg?w=200"
    = "AbcXyz123" ∧
  save_file_target m out "https://thumbs.example.com/AbcXyz123-mobile.jpg?w=200"
    = Target "AbcXyz123.jpg"
             "https://thumbs.example.com/AbcXyz123-mobile.jpg?w=200"
             (out +:+ "/AbcXyz123.jpg") ∧
  extract_file_name "https://thumbs.example.com/SomeId456-large#frag"
    = "SomeId456" ∧
  save_file_target "v" out "https://thumbs.example.com/SomeId456-large#frag"
    = Target "SomeId456.mp4"
             "https://api.redgifs.com/v2/gifs/someid456/files/SomeId456.mp4"
             (out +:+ "/SomeId456.mp4").
Proof.
  intros Hm. split; [reflexivity|]. split; [|split; reflexivity].
  unfold save_file_target. by rewrite bool_decide_eq_false_2 by exact Hm.
Qed.

Lemma filename_derivation_cases_witness :
  save_file_target "v" "out" "https://thumbs.example.com/AbcXyz123-mobile.jpg?w=200"
    = Target "AbcXyz123.jpg"
             "https://thumbs.example.com/AbcXyz123-mobile.jpg?w=200"
             "out/AbcXyz123.jpg".
Proof.
  apply (filename_derivation_cases "v" "out"). discriminate.
Defined.

(** ** The retrying fetcher *)

Section FetcherFacts.

Variable E : env.

Lemma after_requests_0 url w : after_requests 0 url w = w.
Proof. destruct w. unfold after_requests. simpl. by rewrite app_nil_r. Qed.

Lemma after_requests_S n url w :
  after_requests n url (add_request url w) = after_requests (S n) url w.
Proof. unfold after_requests, add_request. simpl. by rewrite <- app_assoc. Qed.

Lemma add_request_after_requests n url w :
  add_request url (after_requests n url w) = after_requests (S n) url w.
Proof.
  unfold after_requests, add_request. simpl.
  by rewrite <- app_assoc, <- replicate_cons_app.
Qed.

Lemma request_loop_break n url content w :
  request_loop E n url true content w = (Returns content, w).
Proof. by destruct n. Qed.

Lemma request_loop_retry n url content w :
  http_get E (length (requests_sent w)) url = GetRaises RequestException →
  request_loop E (S n) url false content w
  = request_loop E n url false content (add_request url w).
Proof.
  intros Hget. simpl.
  unfold mbind, prog_bind, try_except, requests_get. by rewrite Hget.
Qed.

Lemma request_loop_response n url content w status body :
  http_get E (length (requests_sent w)) url = Response status body →
  request_loop E (S n) url false content w
  = (Returns (BytesVal body), add_request url w).
Proof.
  intros Hget. simpl.
  unfold mbind, prog_bind, try_except, requests_get. rewrite Hget. simpl.
  apply request_loop_break.
Qed.

(** [k] failed attempts in a row use up [k] rounds of the loop. *)
Lemma request_loop_failures k : ∀ n url content w,
  (∀ j, j < k →
     http_get E (length (requests_sent w) + j) url = GetRaises RequestException) →
  request_loop E (k + n) url false content w
  = request_loop E n url false content (after_requests k url w).
Proof.
  induction k as [|k IH]; intros n url content w Hfail.
  - by rewrite after_requests_0.
  - change (S k + n) with (S (k + n)).
    rewrite request_loop_retry.
    2:{ specialize (Hfail 0). rewrite Nat.add_0_r in Hfail. apply Hfail. lia. }
    rewrite IH; [by rewrite after_requests_S|].
    intros j Hj. unfold add_request. simpl. rewrite length_app. simpl.
    replace (length (requests_sent w) + 1 + j)
      with (length (requests_sent w) + S j) by lia.
    apply Hfail. lia.
Qed.

(** C3: when every GET for [url] raises [RequestException], the fetch makes
    exactly [MAX_REQUEST_RETRIES] = 5 requests, raises nothing and returns
    the empty payload [""]; files and statistics are untouched. *)
Theorem fetch_always_failing (url : string) (w : world) :
  (∀ i, http_get E i url = GetRaises RequestException) →
  safely_request_content E url w
  = (Returns (StrVal ""),
     World (files w) (downloaded_files_sizes_mb w)
           (requests_sent w ++ [url; url; url; url; url])).
Proof.
  intros Hfail. unfold safely_request_content.
  change MAX_REQUEST_RETRIES with (5 + 0).
  rewrite request_loop_failures by (intros; apply Hfail).
  reflexivity.
Qed.

(** C7: when the first [k - 1] attempts raise [RequestException] and the
    [k]-th returns a response, whatever its status code, the fetch makes
    exactly [k] requests and returns the body of that response. *)
Theorem fetch_stops_at_first_response (url : string) (w : world)
    (k status : nat) (body : list Byte.byte) :
  (1 ≤ k ≤ MAX_REQUEST_RETRIES)%nat →
  (∀ j, j < k - 1 →
     http_get E (length (requests_sent w) + j) url = GetRaises RequestException) →
  http_get E (length (requests_sent w) + (k - 1)) url = Response status body →
  safely_request_content E url w
  = (Returns (BytesVal body), after_requests k url w).
Proof.
  intros [Hk1 Hk5] Hfail Hresp. unfold safely_request_content.
  replace MAX_REQUEST_RETRIES
    with ((k - 1) + S (MAX_REQUEST_RETRIES - k)) by lia.
  rewrite request_loop_failures by exact Hfail.
  rewrite (request_loop_response _ _ _ _ status body).
  - rewrite add_request_after_requests. by replace (S (k - 1)) with k by lia.
  - unfold after_requests. simpl. rewrite length_app, length_replicate.
    exact Hresp.
Qed.

End FetcherFacts.

Lemma fetch_always_failing_witness :
  safely_request_content env_offline "u" world0
  = (Returns (StrVal ""), World ∅ [] ["u"; "u"; "u"; "u"; "u"]).
Proof.
  apply (fetch_always_failing env_offline "u" world0). intros i. reflexivity.
Defined.

Lemma fetch_stops_at_first_response_witness :
  safely_request_content env_third_404 "u" world0
  = (Returns (BytesVal [Byte.x6e; Byte.x6f]), World ∅ [] ["u"; "u"; "u"]).
Proof.
  apply (fetch_stops_at_first_response env_third_404 "u" world0 3 404).
  - unfold MAX_REQUEST_RETRIES. lia.
  - intros j Hj. simpl in *. destruct j as [|[|j]]; [reflexivity|reflexivity|lia].
  - reflexivity.
Defined.

(** ** Saving a file *)

Section SaveFileFacts.

Variable E : env.

(** The fetch loop touches neither the directory nor the statistics. *)
Lemma request_loop_frame n : ∀ url successful content w r w',
  request_loop E n url successful content w = (r, w') →
  files w' = files w ∧
  downloaded_files_sizes_mb w' = downloaded_files_sizes_mb w.
Proof.
  induction n as [|n IH]; intros url successful content w r w' Hrun.
  - by inversion Hrun.
  - simpl in Hrun. destruct successful; [by inversion Hrun|].
    unfold mbind, prog_bind, try_except, requests_get in Hrun.
    destruct (http_get E (length (requests_sent w)) url) as [st body|e].
    + simpl in Hrun. by apply IH in Hrun.
    + destruct e; simpl in Hrun; try by inversion Hrun.
      by apply IH in Hrun.
Qed.

Lemma is_duplicate_false path w :
  files w !! path = None → is_duplicate path w = (Returns false, w).
Proof.
  intros Hnone. unfold is_duplicate. rewrite Hnone.
  by rewrite bool_decide_eq_false_2 by apply is_Some_None.
Qed.

(** [save_file], path by path.  A body that fits the write buffer reaches
    the disk only when the file is closed: its size is read as 0 before,
    and a failure of that last write comes after [is_successful = True]. *)
Lemma save_file_cases (input_ : string) (w : world) :
  let t := save_file_target (mode E) (OUTPUT_DIR E) input_ in
  save_file E input_ w
  = if bool_decide (is_Some (files w !! file_path t)) then (Returns false, w)
    else if open_error E (files w) (file_path t) then (Returns false, w)
    else
      match safely_request_content E (true_url t) (set_file (file_path t) [] w) with
      | (Raises e, w1) =>
          if bool_decide (e = OSError) then (Returns false, w1) else (Raises e, w1)
      | (Returns (StrVal _), w1) => (Raises TypeError, w1)
      | (Returns (BytesVal body), w1) =>
          if (length body <=? buffer_size E)%nat then
            (Returns true,
             match body with
             | [] => add_size (0 # 1048576) w1
             | _ =>
                 if write_error E (files w1) (file_path t)
                 then add_size (0 # 1048576) w1
                 else set_file (file_path t) body (add_size (0 # 1048576) w1)
             end)
          else if write_error E (files w1) (file_path t) then (Returns false, w1)
          else (Returns true,
                add_size (Z.of_nat (length body) # 1048576)
                         (set_file (file_path t) body w1))
      end.
Proof.
  intros t. unfold save_file. fold t.
  unfold mbind at 1. unfold prog_bind at 1. unfold is_duplicate.
  case_bool_decide as Hdup; [reflexivity|].
  unfold try_except_l, with_open_wb, mbind, lprog_bind, open_wb.
  destruct (open_error E (files w) (file_path t)); [reflexivity|].
  unfold save_file_body, lift, mbind, lprog_bind.
  destruct (safely_request_content E (true_url t) (set_file (file_path t) [] w))
    as [[[s|body]|e] w1] eqn:Hfetch.
  - reflexivity.
  - apply request_loop_frame in Hfetch as [Hfiles _].
    assert (Hfile : files w1 !! file_path t = Some []).
    { rewrite Hfiles. unfold set_file. simpl. by rewrite lookup_insert_eq. }
    unfold file_write. cbn [buffer length Nat.add].
    destruct (length body <=? buffer_size E)%nat eqn:Hfit.
    + unfold set_buffer, getsize. cbn [buffer is_successful app].
      rewrite Hfile. cbn [length].
      unfold append_size_mb, set_is_successful, flush. cbn [buffer is_successful].
      destruct body as [|b0 body]; [reflexivity|].
      unfold mbind, lprog_bind, raw_write, add_size. cbn [files].
      destruct (write_error E (files w1) (file_path t)); [reflexivity|].
      unfold set_buffer, set_file. cbn. by rewrite Hfile.
    + assert ((buffer_size E <? length body)%nat = true) as ->.
      { apply Nat.ltb_lt. apply Nat.leb_gt in Hfit. lia. }
      unfold flush, raw_write, mbind, lprog_bind. cbn [buffer is_successful].
      destruct (write_error E (files w1) (file_path t)); [reflexivity|].
      unfold getsize, set_file. cbn [files]. rewrite Hfile, lookup_insert_eq.
      reflexivity.
  - unfold flush. cbn [buffer]. by case_bool_decide.
Qed.


(** C5: when the output path of a link already exists, [save_file] returns
    [False] and leaves the whole world as it was: no request is sent, no
    file is touched, nothing is appended to the statistics. *)
Theorem save_file_duplicate (input_ : string) (w : world) :
  is_Some (files w !! file_path (save_file_target (mode E) (OUTPUT_DIR E) input_)) →
  save_file E input_ w = (Returns false, w).
Proof.
  intros Hdup. unfold save_file, mbind, prog_bind, is_duplicate.
  by rewrite bool_decide_eq_true_2 by exact Hdup.
Qed.

(** With the network down, a link that is not yet on disk makes [save_file]
    create the empty file, spend the five attempts and then fail in
    [file.write] on the text string [""]. *)
Lemma save_file_exhausted_fetch (input_ : string) (w : world) :
  let t := save_file_target (mode E) (OUTPUT_DIR E) input_ in
  files w !! file_path t = None →
  open_error E (files w) (file_path t) = false →
  (∀ i, http_get E i (true_url t) = GetRaises RequestException) →
  save_file E input_ w
  = (Raises TypeError,
     after_requests MAX_REQUEST_RETRIES (true_url t) (set_file (file_path t) [] w)).
Proof.
  intros t Hnew Hopen Hdown. rewrite save_file_cases. fold t.
  rewrite bool_decide_eq_false_2 by (rewrite Hnew; apply is_Some_None).
  rewrite Hopen.
  unfold safely_request_content. change MAX_REQUEST_RETRIES with (5 + 0).
  rewrite (request_loop_failures E) by (intros; apply Hdown).
  reflexivity.
Qed.

(** An [OSError] that [open] raises, or that [file.write] raises for a body
    too long for the write buffer, is caught before anything is recorded:
    [save_file] returns [False], the statistics are as before, and the
    worker goes on with the rest of its batch. *)
Lemma save_file_oserror_caught (input_ : string) (w : world) :
  let t := save_file_target (mode E) (OUTPUT_DIR E) input_ in
  files w !! file_path t = None →
  (open_error E (files w) (file_path t) = true ∨
   (open_error E (files w) (file_path t) = false ∧
    ∃ body w1,
      safely_request_content E (true_url t) (set_file (file_path t) [] w)
        = (Returns (BytesVal body), w1) ∧
      buffer_size E < length body ∧
      write_error E (files w1) (file_path t) = true)) →
  ∃ w',
    save_file E input_ w = (Returns false, w') ∧
    downloaded_files_sizes_mb w' = downloaded_files_sizes_mb w ∧
    ∀ rest, worker E (input_ :: rest) w
            = (oks ← worker E rest; mret (false :: oks)) w'.
Proof.
  intros t Hnew Hfail.
  assert (Hsave : ∃ w', save_file E input_ w = (Returns false, w') ∧
            downloaded_files_sizes_mb w' = downloaded_files_sizes_mb w).
  { rewrite save_file_cases. fold t.
    rewrite bool_decide_eq_false_2 by (rewrite Hnew; apply is_Some_None).
    destruct Hfail as [Hopen|(Hopen & body & w1 & Hfetch & Hlong & Hwrite)].
    - rewrite Hopen. by exists w.
    - rewrite Hopen, Hfetch.
      assert ((length body <=? buffer_size E)%nat = false) as ->
        by (apply Nat.leb_gt; lia).
      rewrite Hwrite. exists w1. split; [done|].
      by apply request_loop_frame in Hfetch as [_ ->]. }
  destruct Hsave as (w' & Hsave & Hstats).
  exists w'. split; [done|]. split; [done|].
  intros rest. simpl. unfold mbind at 1. unfold prog_bind at 1.
  by rewrite Hsave.
Qed.

(** An exception that leaves [save_file] ends the worker: the rest of the
    batch is not processed. *)
Lemma worker_aborts (input_ : string) (rest : list string) (w w' : world) e :
  save_file E input_ w = (Raises e, w') →
  worker E (input_ :: rest) w = (Raises e, w').
Proof.
  intros Hsave. simpl. unfold mbind at 1. unfold prog_bind at 1.
  by rewrite Hsave.
Qed.

End SaveFileFacts.

(** A download that goes through: the body of the first response is written,
    whatever its status.  The two bytes are still in the write buffer when
    the size is read, so the size recorded is 0. *)
Example save_file_success :
  save_file env_third_404 sample_link world0
  = (Returns true,
     World {[ "out/SomeId456.mp4" := [Byte.x6e; Byte.x6f] ]}
           [0 # 1048576]%Q
           [sample_url; sample_url; sample_url]).
Proof. vm_compute. reflexivity. Qed.

(** With a write buffer of one byte the same body is written through by
    [file.write], and its size is recorded; on a full disk that write
    fails and the download counts as failed. *)
Example save_file_written_through :
  save_file env_tiny_buffer sample_link world0
  = (Returns true,
     World {[ "out/SomeId456.mp4" := [Byte.x6f; Byte.x6b] ]}
           [2 # 1048576]%Q [sample_url]) ∧
  save_file env_tiny_buffer_disk_full sample_link world0
  = (Returns false, World {[ "out/SomeId456.mp4" := [] ]} [] [sample_url]).
Proof. split; vm_compute; reflexivity. Qed.

(** C4: with the network down, [save_file] on a link that is not yet on disk
    does not return [False]: the exhausted fetch hands the text string [""] to
    a file opened in binary mode, and [TypeError] leaves [save_file].  Nothing
    is appended to the statistics; the empty file stays on disk. *)
Theorem save_file_exhausted_fetch_raises :
  save_file env_offline sample_link world0
  = (Raises TypeError,
     World {[ "out/SomeId456.mp4" := [] ]} []
           [sample_url; sample_url; sample_url; sample_url; sample_url]).
Proof.
  rewrite save_file_exhausted_fetch; reflexivity.
Qed.

(** C8: a write failure is not always a failed download.  On a full disk
    the two-byte body of the response fits the write buffer, so
    [file.write] succeeds, the size 0 is appended to the statistics and
    [is_successful] is set; the [OSError] only comes when the [with] block
    closes the file.  It is caught, but [save_file] returns [True], with
    the empty file on disk and the entry 0 recorded. *)
Theorem save_file_close_error_returns_true :
  save_file env_disk_full sample_link world0
  = (Returns true,
     World {[ "out/SomeId456.mp4" := [] ]} [0 # 1048576]%Q [sample_url]).
Proof. vm_compute. reflexivity. Qed.

(** C9: one worker, one link, one successful write of a known size: the
    worker returns [True] for it and the file holds the two bytes of the
    response, but the one entry of the statistics is 0, not the size of
    the file: the size is read inside the [with] block, before the
    buffered bytes reach the disk.  The total is not the sum of the sizes
    written. *)
Theorem statistics_miss_buffered_bytes :
  worker env_healthy [sample_link] world0
  = (Returns [true],
     World {[ "out/SomeId456.mp4" := [Byte.x6f; Byte.x6b] ]}
           [0 # 1048576]%Q [sample_url]) ∧
  ¬ (0 # 1048576 == Z.of_nat (length [Byte.x6f; Byte.x6b]) # 1048576)%Q.
Proof.
  split; [vm_compute; reflexivity|].
  intros Heq. vm_compute in Heq. discriminate Heq.
Qed.

Lemma save_file_duplicate_witness :
  save_file env_third_404 sample_link
            (World {[ "out/SomeId456.mp4" := [Byte.x00] ]} [1 # 2]%Q ["u"])
  = (Returns false, World {[ "out/SomeId456.mp4" := [Byte.x00] ]} [1 # 2]%Q ["u"]).
Proof.
  apply (save_file_duplicate env_third_404 sample_link). vm_compute. eauto.
Defined.
(** ** The batch partitioner *)

Lemma batch_sizes_0 b : 0 < b → batch_sizes 0 b = [].
Proof.
  intros Hb. unfold batch_sizes.
  rewrite Nat.Div0.div_0_l, Nat.Div0.mod_0_l. reflexivity.
Qed.

Lemma batch_sizes_small m b : 0 < m < b → batch_sizes m b = [m].
Proof.
  intros Hm. unfold batch_sizes.
  rewrite Nat.div_small, Nat.mod_small by lia. simpl.
  destruct (Nat.eqb_spec m 0); [lia|reflexivity].
Qed.

Lemma batch_sizes_step m b :
  0 < b ≤ m → batch_sizes m b = b :: batch_sizes (m - b) b.
Proof.
  intros Hb. unfold batch_sizes.
  assert (Hdiv : m / b = S ((m - b) / b)).
  { replace m with ((m - b) + 1 * b) at 1 by lia.
    rewrite Nat.div_add by lia. lia. }
  assert (Hmod : m mod b = (m - b) mod b).
  { replace m with ((m - b) + 1 * b) at 1 by lia.
    by rewrite Nat.Div0.mod_add. }
  rewrite Hdiv, Hmod. reflexivity.
Qed.

Lemma ceil_div_pos a b : 0 < a → 0 < b → 0 < ceil_div a b.
Proof.
  intros Ha Hb. unfold ceil_div. apply Nat.div_str_pos. lia.
Qed.

Lemma length_concat_sum (bs : list (list string)) :
  length (concat bs) = sum_list (length <$> bs).
Proof.
  induction bs as [|b bs IH]; simpl; [done|].
  by rewrite length_app, IH.
Qed.

Lemma elem_of_concat (bs : list (list string)) i b x :
  bs !! i = Some b → x ∈ b → x ∈ concat bs.
Proof.
  revert i. induction bs as [|b0 bs IH]; intros i Hi Hx; [done|].
  simpl. apply elem_of_app. destruct i as [|i]; simpl in Hi.
  - left. congruence.
  - right. eauto.
Qed.

(** Batches whose concatenation has no repetition are pairwise disjoint. *)
Lemma NoDup_concat_disjoint (bs : list (list string)) :
  NoDup (concat bs) → pairwise_disjoint bs.
Proof.
  induction bs as [|b0 bs IH]; intros Hnd i j bi bj Hij Hi Hj x Hxi Hxj;
    [done|].
  simpl in Hnd. apply NoDup_app in Hnd as (_ & Hsep & Hrest).
  destruct i as [|i], j as [|j]; simpl in Hi, Hj; try done.
  - inversion Hi; subst. apply (Hsep x Hxi). by eapply elem_of_concat.
  - inversion Hj; subst. apply (Hsep x Hxj). by eapply elem_of_concat.
  - assert (Hne : i ≠ j) by congruence.
    exact (IH Hrest i j bi bj Hne Hi Hj x Hxi Hxj).
Qed.

Lemma pick_first_elem (s : gset string) : s ≠ ∅ → pick_first s ∈ s.
Proof.
  intros Hne. unfold pick_first.
  destruct (elements s) as [|x l] eqn:Hel.
  - apply elements_empty_inv, leibniz_equiv in Hel. done.
  - simpl. apply elem_of_elements. rewrite Hel. left.
Qed.

Lemma size_0_empty (s : gset string) : size s = 0 → s = ∅.
Proof. intros Hsz. apply leibniz_equiv. by apply size_empty_inv. Qed.

Section PartitionerFacts.

Variable pick : gset string → string.
Hypothesis pick_elem : ∀ s, s ≠ ∅ → pick s ∈ s.

Lemma pick_elem_pos s : 0 < size s → pick s ∈ s.
Proof.
  intros Hpos. apply pick_elem. intros ->. rewrite size_empty in Hpos. lia.
Qed.

(** One batch: distinct elements taken out of the set, as many as asked for
    or as many as there are. *)
Lemma pop_batch_spec n : ∀ s xs s',
  pop_batch pick n s = (xs, s') →
  NoDup xs ∧ (∀ x, x ∈ xs → x ∉ s') ∧ s = list_to_set xs ∪ s' ∧
  length xs = n `min` size s ∧ size s' = size s - n `min` size s.
Proof.
  induction n as [|n IH]; intros s xs s' Hpop; simpl in Hpop.
  - inversion Hpop; subst. repeat split.
    + constructor.
    + intros x Hx. by apply elem_of_nil in Hx.
    + set_solver.
    + lia.
  - case_bool_decide as Hpos.
    + destruct (pop_batch pick n (s ∖ {[pick s]})) as [ys s2] eqn:Hrec.
      inversion Hpop; subst.
      pose proof (pick_elem_pos s Hpos) as Hin.
      destruct (IH _ _ _ Hrec) as (Hnd & Hsep & Hunion & Hlen & Hsize).
      assert (Hsz : size (s ∖ {[pick s]}) = size s - 1).
      { rewrite size_difference by set_solver. by rewrite size_singleton. }
      repeat split.
      * constructor; [|done]. intros Hy.
        assert (pick s ∈ s ∖ {[pick s]}) by (rewrite Hunion; set_solver).
        set_solver.
      * intros x Hx. apply elem_of_cons in Hx as [->|Hx]; [|by apply Hsep].
        intros Hx2. assert (pick s ∈ s ∖ {[pick s]}) by (rewrite Hunion; set_solver).
        set_solver.
      * simpl. rewrite <- union_assoc_L, <- Hunion.
        apply set_eq. intros y. destruct (decide (y = pick s)); set_solver.
      * change (length (pick s :: ys)) with (S (length ys)). lia.
      * lia.
    + apply IH in Hpop as (Hnd & Hsep & Hunion & Hlen & Hsize).
      repeat split; try done; lia.
Qed.

Lemma drain_done fuel b s acc :
  size s = 0 → drain pick fuel b s acc = Some (acc, s).
Proof.
  intros Hsz. destruct fuel; cbn [drain];
    by rewrite bool_decide_eq_false_2 by lia.
Qed.

Lemma drain_step fuel b s acc :
  0 < size s →
  drain pick (S fuel) b s acc
  = let '(xs, s') := pop_batch pick b s in drain pick fuel b s' (acc ++ [xs]).
Proof. intros Hpos. cbn [drain]. by rewrite bool_decide_eq_true_2. Qed.

(** The drain loop ends within [size s] rounds, leaves the set empty and
    appends batches that split [s] into pieces of the expected sizes. *)
Lemma drain_spec fuel : ∀ b s acc,
  0 < b → size s ≤ fuel →
  ∃ bs, drain pick fuel b s acc = Some (acc ++ bs, ∅) ∧
        NoDup (concat bs) ∧ list_to_set (concat bs) = s ∧
        length <$> bs = batch_sizes (size s) b.
Proof.
  assert (Hempty : ∀ fuel b s acc, 0 < b → size s = 0 →
    ∃ bs, drain pick fuel b s acc = Some (acc ++ bs, ∅) ∧
          NoDup (concat bs) ∧ list_to_set (concat bs) = s ∧
          length <$> bs = batch_sizes (size s) b).
  { intros fuel' b s acc Hb Hsz. exists [].
    rewrite (drain_done _ _ _ _ Hsz), Hsz, batch_sizes_0, app_nil_r by done.
    apply size_0_empty in Hsz as ->. repeat split. constructor. }
  induction fuel as [|fuel IH]; intros b s acc Hb Hfuel.
  - apply Hempty; [done|lia].
  - destruct (decide (size s = 0)) as [Hsz|Hsz]; [by apply Hempty|].
    rewrite drain_step by lia.
    destruct (pop_batch pick b s) as [xs s'] eqn:Hpop.
    apply pop_batch_spec in Hpop as (Hnd & Hsep & Hunion & Hlen & Hsize).
    destruct (IH b s' (acc ++ [xs]) Hb) as (bs & Hrun & Hnd' & Hset & Hlens);
      [lia|].
    exists (xs :: bs). rewrite Hrun, <- app_assoc.
    split; [done|]. split; [|split].
    + cbn [concat]. apply NoDup_app. split; [done|]. split; [|done].
      intros x Hx Hx'. apply (Hsep x Hx). rewrite <- Hset.
      by apply elem_of_list_to_set.
    + cbn [concat]. rewrite list_to_set_app_L, Hset. by rewrite Hunion.
    + rewrite fmap_cons, Hlens, Hsize, Hlen.
      destruct (decide (size s < b)) as [Hlt|Hge].
      * rewrite Nat.min_r by lia. rewrite Nat.sub_diag.
        rewrite batch_sizes_0, batch_sizes_small by lia. reflexivity.
      * rewrite Nat.min_l by lia. by rewrite (batch_sizes_step (size s)) by lia.
Qed.

(** C2: for a non-empty set of links and at least one worker, the call
    returns (given [size s] rounds of the loop), the batches are pairwise
    disjoint, their sizes add up to the size of the set, and the set is
    empty afterwards.  The batches hold the links of the set and nothing
    else, each link once. *)
Theorem partition_complete (fuel threads_to_use : nat) (s : gset string) :
  s ≠ ∅ → 1 ≤ threads_to_use → size s ≤ fuel →
  ∃ batches,
    get_captured_links_batches pick fuel threads_to_use s
      = Some (Returns batches, ∅) ∧
    pairwise_disjoint batches ∧
    sum_list (length <$> batches) = size s ∧
    NoDup (concat batches) ∧
    list_to_set (concat batches) = s.
Proof.
  intros Hne Hthreads Hfuel.
  assert (Hpos : 0 < size s).
  { destruct (size s) eqn:Hsz; [|lia]. by apply size_0_empty in Hsz. }
  destruct (drain_spec fuel (ceil_div (size s) threads_to_use) s [])
    as (bs & Hrun & Hnd & Hset & _); [by apply ceil_div_pos|done|].
  exists bs. unfold get_captured_links_batches.
  destruct (Nat.eqb_spec threads_to_use 0); [lia|].
  rewrite Hrun. split; [done|]. split; [by apply NoDup_concat_disjoint|].
  split; [|by split].
  rewrite <- length_concat_sum, <- Hset. symmetry. by apply size_list_to_set.
Qed.

(** C1 (as the program behaves): 23 links and 10 workers give batch size 3
    and eight batches, seven of size 3 followed by one of size 2, pairwise
    disjoint and together holding exactly the 23 links. *)
Theorem batches_of_23_links (fuel : nat) (s : gset string) :
  size s = 23 → 23 ≤ fuel →
  ∃ batches,
    get_captured_links_batches pick fuel THREADS_TO_USE s
      = Some (Returns batches, ∅) ∧
    length <$> batches = [3; 3; 3; 3; 3; 3; 3; 2] ∧
    pairwise_disjoint batches ∧
    list_to_set (concat batches) = s.
Proof.
  intros Hsize Hfuel.
  destruct (drain_spec fuel (ceil_div (size s) THREADS_TO_USE) s [])
    as (bs & Hrun & Hnd & Hset & Hlens).
  { rewrite Hsize. vm_compute. lia. }
  { lia. }
  exists bs. unfold get_captured_links_batches. simpl (THREADS_TO_USE =? 0)%nat.
  rewrite Hrun. split; [done|]. split; [|split].
  - rewrite Hlens, Hsize. reflexivity.
  - by apply NoDup_concat_disjoint.
  - done.
Qed.

End PartitionerFacts.

Lemma partition_complete_witness :
  ∃ batches,
    get_captured_links_batches pick_first 23 4 links23 = Some (Returns batches, ∅) ∧
    pairwise_disjoint batches ∧
    sum_list (length <$> batches) = size links23 ∧
    NoDup (concat batches) ∧
    list_to_set (concat batches) = links23.
Proof.
  apply (partition_complete pick_first pick_first_elem 23 4 links23).
  - intros Hempty. apply (f_equal size) in Hempty. vm_compute in Hempty. lia.
  - lia.
  - vm_compute. lia.
Defined.

Lemma batches_of_23_links_witness :
  ∃ batches,
    get_captured_links_batches pick_first 23 THREADS_TO_USE links23
      = Some (Returns batches, ∅) ∧
    length <$> batches = [3; 3; 3; 3; 3; 3; 3; 2] ∧
    pairwise_disjoint batches ∧
    list_to_set (concat batches) = links23.
Proof.
  apply (batches_of_23_links pick_first pick_first_elem 23 links23).
  - vm_compute. reflexivity.
  - lia.
Defined.

(** C1 as worded fails: for these 23 links the program returns eight batches,
    seven of size 3 and one of size 2, not ten batches with three of size 3
    and seven of size 2. *)
Lemma batches_of_23_links_not_ten :
  ∃ batches,
    get_captured_links_batches pick_first 23 THREADS_TO_USE links23
      = Some (Returns batches, ∅) ∧
    length batches = 8 ∧ count_size 3 batches = 7 ∧ count_size 2 batches = 1 ∧
    ¬ (length batches = THREADS_TO_USE ∧
       count_size 3 batches = 3 ∧ count_size 2 batches = 7).
Proof.
  eexists. split; [vm_compute; reflexivity|].
  repeat split; try (vm_compute; reflexivity).
  intros (Hlen & _). vm_compute in Hlen. lia.
Qed.

(** ** What a derived name can contain, and what it depends on *)

Lemma string_app_nil_l (a : string) : "" +:+ a = a.
Proof. reflexivity. Qed.

Lemma string_app_cons (x : ascii) (a b : string) :
  String x a +:+ b = String x (a +:+ b).
Proof. reflexivity. Qed.

Lemma string_app_assoc (a b c : string) : (a +:+ b) +:+ c = a +:+ (b +:+ c).
Proof.
  induction a as [|x a IH]; [reflexivity|].
  rewrite !string_app_cons. by f_equal.
Qed.

Lemma string_app_nil_r (a : string) : a +:+ "" = a.
Proof.
  induction a as [|x a IH]; [reflexivity|].
  rewrite string_app_cons. by f_equal.
Qed.

Lemma contains_char_cons (c d : ascii) (r : string) :
  PyStr.contains (String c "") (String d r)
  = if Ascii.ascii_dec c d then true else PyStr.contains (String c "") r.
Proof.
  simpl. destruct (Ascii.ascii_dec c d); [by destruct r|reflexivity].
Qed.

Lemma contains_char_app (c : ascii) (a b : string) :
  PyStr.contains (String c "") (a +:+ b)
  = PyStr.contains (String c "") a || PyStr.contains (String c "") b.
Proof.
  induction a as [|x a IH].
  - by destruct b.
  - rewrite string_app_cons, !contains_char_cons, IH. by destruct (Ascii.ascii_dec c x).
Qed.

Lemma first_part_split_cons (sep d : ascii) (r : string) :
  PyStr.first_part (PyStr.split sep (String d r))
  = if Ascii.eqb d sep then "" else String d (PyStr.first_part (PyStr.split sep r)).
Proof.
  simpl. destruct (Ascii.eqb d sep); [reflexivity|].
  pose proof (split_nonempty sep r). by destruct (PyStr.split sep r).
Qed.

(** The first piece of a split holds no separator, and no character that the
    whole string does not hold. *)
Lemma first_part_no_sep (sep : ascii) (s : string) :
  PyStr.contains (String sep "") (PyStr.first_part (PyStr.split sep s)) = false.
Proof.
  induction s as [|d r IH]; [reflexivity|].
  rewrite first_part_split_cons.
  destruct (Ascii.eqb_spec d sep) as [->|Hne]; [reflexivity|].
  rewrite contains_char_cons. by destruct (Ascii.ascii_dec sep d); [subst|].
Qed.

Lemma first_part_keeps_absent (c sep : ascii) (s : string) :
  PyStr.contains (String c "") s = false →
  PyStr.contains (String c "") (PyStr.first_part (PyStr.split sep s)) = false.
Proof.
  induction s as [|d r IH]; [done|].
  rewrite first_part_split_cons, contains_char_cons.
  destruct (Ascii.ascii_dec c d); [done|]. intros Hr.
  destruct (Ascii.eqb d sep); [reflexivity|].
  rewrite contains_char_cons. destruct (Ascii.ascii_dec c d); [done|auto].
Qed.

Lemma last_part_split_cons (sep d : ascii) (r : string) :
  PyStr.last_part (PyStr.split sep (String d r))
  = if Ascii.eqb d sep then PyStr.last_part (PyStr.split sep r)
    else match PyStr.split sep r with
         | [p] => String d p
         | _ => PyStr.last_part (PyStr.split sep r)
         end.
Proof.
  simpl. pose proof (split_nonempty sep r) as Hne.
  destruct (Ascii.eqb d sep).
  - unfold PyStr.last_part. by destruct (PyStr.split sep r).
  - unfold PyStr.last_part. destruct (PyStr.split sep r) as [|p [|q ps]]; done.
Qed.

Lemma last_part_no_sep (sep : ascii) (s : string) :
  PyStr.contains (String sep "") (PyStr.last_part (PyStr.split sep s)) = false.
Proof.
  induction s as [|d r IH]; [reflexivity|].
  rewrite last_part_split_cons.
  destruct (Ascii.eqb_spec d sep) as [->|Hne]; [done|].
  destruct (PyStr.split sep r) as [|p [|q ps]]; try done.
  rewrite contains_char_cons. destruct (Ascii.ascii_dec sep d); [by subst|done].
Qed.

Lemma replace_from_skip (k : nat) (old new : string) (d : ascii) (r : string) :
  PyStr.replace_from (S k) old new (String d r) = PyStr.replace_from k old new r.
Proof. reflexivity. Qed.

Lemma replace_from_scan (old new : string) (d : ascii) (r : string) :
  PyStr.replace_from 0 old new (String d r)
  = if String.prefix old (String d r)
    then new +:+ PyStr.replace_from (String.length old - 1) old new r
    else String d (PyStr.replace_from 0 old new r).
Proof. reflexivity. Qed.

(** Replacing by the empty string only deletes characters. *)
Lemma replace_from_keeps_absent (c : ascii) (old : string) (s : string) :
  ∀ skip, PyStr.contains (String c "") s = false →
  PyStr.contains (String c "") (PyStr.replace_from skip old "" s) = false.
Proof.
  induction s as [|d r IH]; intros skip; [done|].
  rewrite contains_char_cons. destruct (Ascii.ascii_dec c d) as [|Hne]; [done|].
  intros Hr. destruct skip as [|k]; [|rewrite replace_from_skip; by apply IH].
  rewrite replace_from_scan. destruct (String.prefix old (String d r)).
  - rewrite string_app_nil_l. by apply IH.
  - rewrite contains_char_cons. destruct (Ascii.ascii_dec c d); [done|by apply IH].
Qed.

Lemma replace_keeps_absent (c : ascii) (old s : string) :
  PyStr.contains (String c "") s = false →
  PyStr.contains (String c "") (PyStr.replace old "" s) = false.
Proof. apply replace_from_keeps_absent. Qed.

(** X1: whatever the link, the derived name holds
    no "/", no "?", no "#" and no ".": it is a single path component without
    extension. *)
Theorem extract_file_name_safe_chars (url : string) :
  PyStr.contains "/" (extract_file_name url) = false ∧
  PyStr.contains "?" (extract_file_name url) = false ∧
  PyStr.contains "#" (extract_file_name url) = false ∧
  PyStr.contains "." (extract_file_name url) = false.
Proof.
  unfold extract_file_name.
  destruct (1 <? length (PyStr.split "/" url))%nat; [|by repeat split].
  repeat split.
  - apply first_part_keeps_absent. do 3 apply replace_keeps_absent.
    do 2 apply first_part_keeps_absent. apply last_part_no_sep.
  - apply first_part_keeps_absent. do 3 apply replace_keeps_absent.
    apply first_part_keeps_absent. apply first_part_no_sep.
  - apply first_part_keeps_absent. do 3 apply replace_keeps_absent.
    apply first_part_no_sep.
  - apply first_part_no_sep.
Qed.

Lemma split_cons (sep c : ascii) (r : string) :
  PyStr.split sep (String c r)
  = if Ascii.eqb c sep then "" :: PyStr.split sep r
    else match PyStr.split sep r with
         | [] => [String c ""]
         | p :: ps => String c p :: ps
         end.
Proof. reflexivity. Qed.

(** Splitting around an occurrence of the separator. *)
Lemma split_app (sep : ascii) (a b : string) :
  PyStr.split sep (a +:+ String sep b) = PyStr.split sep a ++ PyStr.split sep b.
Proof.
  induction a as [|c a IH].
  - rewrite string_app_nil_l, split_cons, Ascii.eqb_refl. reflexivity.
  - rewrite string_app_cons, !split_cons, IH.
    destruct (Ascii.eqb c sep); [reflexivity|].
    pose proof (split_nonempty sep a). by destruct (PyStr.split sep a).
Qed.

(** Appending text without separator extends the last piece. *)
Lemma split_app_nosep (sep : ascii) (a b : string) :
  PyStr.contains (String sep "") b = false →
  PyStr.split sep (a +:+ b)
  = removelast (PyStr.split sep a) ++ [PyStr.last_part (PyStr.split sep a) +:+ b].
Proof.
  intros Hb. induction a as [|c a IH].
  - rewrite string_app_nil_l. by apply split_without_sep.
  - rewrite string_app_cons, !split_cons, IH.
    pose proof (split_nonempty sep a) as Hne. unfold PyStr.last_part.
    destruct (Ascii.eqb c sep).
    + by destruct (PyStr.split sep a).
    + destruct (PyStr.split sep a) as [|p [|q ps]]; done.
Qed.

Lemma split_length_contains (sep : ascii) (s : string) :
  (1 <? length (PyStr.split sep s))%nat = PyStr.contains (String sep "") s.
Proof.
  induction s as [|c r IH]; [reflexivity|].
  rewrite split_cons, contains_char_cons.
  pose proof (split_nonempty sep r) as Hne.
  destruct (Ascii.eqb_spec c sep) as [->|Hc].
  - destruct (Ascii.ascii_dec sep sep); [|done].
    by destruct (PyStr.split sep r).
  - destruct (Ascii.ascii_dec sep c); [by subst|].
    rewrite <- IH. by destruct (PyStr.split sep r).
Qed.

(** The stripping steps of [extract_file_name], applied to the last path
    segment. *)
Lemma extract_file_name_of_parts (url : string) :
  extract_file_name url
  = if PyStr.contains "/" url then
      PyStr.first_part (PyStr.split "."
        (PyStr.replace "-large" "" (PyStr.replace "-silent" ""
          (PyStr.replace "-mobile" ""
            (PyStr.first_part (PyStr.split "#"
              (PyStr.first_part (PyStr.split "?"
                (PyStr.last_part (PyStr.split "/" url))))))))))
    else "ERROR".
Proof. unfold extract_file_name. by rewrite split_length_contains. Qed.

Lemma list_last_app {A : Type} (l1 l2 : list A) (d : A) :
  l2 ≠ [] → List.last (l1 ++ l2) d = List.last l2 d.
Proof.
  intros Hne. rewrite (app_removelast_last d Hne) at 1.
  by rewrite app_assoc, last_last.
Qed.

Lemma last_part_app_sep (sep : ascii) (a b : string) :
  PyStr.last_part (PyStr.split sep (a +:+ String sep b))
  = PyStr.last_part (PyStr.split sep b).
Proof.
  rewrite split_app. unfold PyStr.last_part.
  apply list_last_app, split_nonempty.
Qed.

Lemma last_part_app_nosep (sep : ascii) (a b : string) :
  PyStr.contains (String sep "") b = false →
  PyStr.last_part (PyStr.split sep (a +:+ b))
  = PyStr.last_part (PyStr.split sep a) +:+ b.
Proof.
  intros Hb. rewrite split_app_nosep by done.
  unfold PyStr.last_part at 1. by rewrite last_last.
Qed.

Lemma first_part_app_sep (sep : ascii) (a b : string) :
  PyStr.first_part (PyStr.split sep (a +:+ String sep b))
  = PyStr.first_part (PyStr.split sep a).
Proof.
  rewrite split_app. pose proof (split_nonempty sep a).
  by destruct (PyStr.split sep a).
Qed.

(** X2: the derived name depends only on the
    text after the last "/": host and directories of the link play no part. *)
Theorem extract_file_name_last_segment (pre seg : string) :
  PyStr.contains "/" seg = false →
  extract_file_name (pre +:+ "/" +:+ seg) = extract_file_name ("/" +:+ seg).
Proof.
  intros Hseg. rewrite !extract_file_name_of_parts.
  rewrite !contains_char_app. simpl (PyStr.contains "/" "/").
  rewrite !orb_true_r.
  change ("/" +:+ seg) with (String "/" seg).
  rewrite (last_part_app_sep "/" pre seg).
  change (String "/" seg) with ("" +:+ String "/" seg).
  by rewrite (last_part_app_sep "/" "" seg).
Qed.

Lemma extract_file_name_last_segment_witness :
  extract_file_name ("https://thumbs.example.com/a/b" +:+ "/" +:+ "Abc-large.jpg")
  = extract_file_name ("/" +:+ "Abc-large.jpg").
Proof.
  apply (extract_file_name_last_segment "https://thumbs.example.com/a/b"
           "Abc-large.jpg").
  reflexivity.
Defined.

Lemma contains_char_cons_ne (c d : ascii) (r : string) :
  c ≠ d → PyStr.contains (String c "") (String d r) = PyStr.contains (String c "") r.
Proof.
  intros Hne. rewrite contains_char_cons. by destruct (Ascii.ascii_dec c d).
Qed.

Lemma strip_fragment_app (x f : string) :
  PyStr.first_part (PyStr.split "#"
    (PyStr.first_part (PyStr.split "?" (x +:+ String "#" f))))
  = PyStr.first_part (PyStr.split "#" (PyStr.first_part (PyStr.split "?" x))).
Proof.
  induction x as [|d x IH].
  - rewrite string_app_nil_l, first_part_split_cons.
    change (Ascii.eqb "#" "?") with false. cbv iota.
    by rewrite first_part_split_cons.
  - rewrite string_app_cons, !(first_part_split_cons "?").
    destruct (Ascii.eqb d "?"); [reflexivity|].
    rewrite !(first_part_split_cons "#"), IH. reflexivity.
Qed.

(** X3: a query string or a fragment appended
    to a link does not change the derived name, as long as the appended text
    holds no "/". *)
Theorem extract_file_name_ignores_query (url q : string) :
  PyStr.contains "/" q = false →
  extract_file_name (url +:+ "?" +:+ q) = extract_file_name url ∧
  extract_file_name (url +:+ "#" +:+ q) = extract_file_name url.
Proof.
  intros Hq. rewrite !extract_file_name_of_parts.
  change ("?" +:+ q) with (String "?" q). change ("#" +:+ q) with (String "#" q).
  rewrite !contains_char_app.
  rewrite (contains_char_cons_ne "/" "?" q), (contains_char_cons_ne "/" "#" q), Hq,
    orb_false_r by discriminate.
  destruct (PyStr.contains "/" url); [|done].
  rewrite (last_part_app_nosep "/" url (String "?" q))
    by (by rewrite contains_char_cons_ne, Hq).
  rewrite (last_part_app_nosep "/" url (String "#" q))
    by (by rewrite contains_char_cons_ne, Hq).
  by rewrite first_part_app_sep, strip_fragment_app.
Qed.

Lemma extract_file_name_ignores_query_witness :
  extract_file_name "https://h.example/Abc-mobile.jpg?w=200&h=1"
  = extract_file_name "https://h.example/Abc-mobile.jpg" ∧
  extract_file_name "https://h.example/Abc-mobile.jpg#w=200&h=1"
  = extract_file_name "https://h.example/Abc-mobile.jpg".
Proof.
  apply (extract_file_name_ignores_query "https://h.example/Abc-mobile.jpg" "w=200&h=1").
  reflexivity.
Defined.

(** ** Names of thumbnails and of API URLs *)

Lemma first_part_app_nosep (c : ascii) (a b : string) :
  PyStr.contains (String c "") a = false →
  PyStr.first_part (PyStr.split c (a +:+ b))
  = a +:+ PyStr.first_part (PyStr.split c b).
Proof.
  induction a as [|d a IH]; [done|].
  rewrite contains_char_cons. destruct (Ascii.ascii_dec c d) as [|Hne]; [done|].
  intros Ha. rewrite !string_app_cons, first_part_split_cons.
  destruct (Ascii.eqb_spec d c) as [->|_]; [done|]. by rewrite IH.
Qed.

Lemma replace_app_plain (x : ascii) (old' new a b : string) :
  PyStr.contains (String x "") a = false →
  PyStr.replace (String x old') new (a +:+ b)
  = a +:+ PyStr.replace (String x old') new b.
Proof.
  unfold PyStr.replace. induction a as [|d a IH]; [done|].
  rewrite contains_char_cons. destruct (Ascii.ascii_dec x d) as [|Hne]; [done|].
  intros Ha. rewrite !string_app_cons, replace_from_scan.
  assert (String.prefix (String x old') (String d (a +:+ b)) = false) as ->.
  { simpl. by destruct (Ascii.ascii_dec x d). }
  by rewrite IH.
Qed.

Lemma plain_name_spec (name : string) :
  plain_name name = true →
  PyStr.contains "/" name = false ∧ PyStr.contains "?" name = false ∧
  PyStr.contains "#" name = false ∧ PyStr.contains "." name = false ∧
  PyStr.contains "-" name = false.
Proof.
  unfold plain_name. cbn [forallb]. rewrite !andb_true_iff, !negb_true_iff.
  tauto.
Qed.

(** One replacement step on a plain id followed by a size marker. *)
Lemma replace_marker (old suffix id t : string) :
  old ∈ ["-mobile"; "-silent"; "-large"] → suffix ∈ thumbnail_suffixes →
  PyStr.contains "-" id = false →
  PyStr.replace old "" (id +:+ suffix +:+ String "." t)
  = id +:+ (if String.eqb suffix old then "" else suffix)
       +:+ String "." (PyStr.replace old "" t).
Proof.
  intros Hold Hsuf Hid. unfold thumbnail_suffixes in Hsuf.
  repeat (apply elem_of_cons in Hold as [->|Hold]);
    [| | |by apply elem_of_nil in Hold];
    rewrite replace_app_plain by done; f_equal;
    repeat (apply elem_of_cons in Hsuf as [->|Hsuf]);
    try (by apply elem_of_nil in Hsuf); reflexivity.
Qed.

(** The stripping steps on the segment [id ++ suffix ++ "." ++ tail]. *)
Lemma strip_segment (id suffix tail : string) :
  plain_name id = true → suffix ∈ thumbnail_suffixes →
  PyStr.first_part (PyStr.split "."
    (PyStr.replace "-large" "" (PyStr.replace "-silent" ""
      (PyStr.replace "-mobile" ""
        (PyStr.first_part (PyStr.split "#"
          (PyStr.first_part (PyStr.split "?"
            (id +:+ suffix +:+ String "." tail)))))))))
  = id.
Proof.
  intros Hid Hsuf.
  apply plain_name_spec in Hid as (_ & Hq & Hf & Hdot & Hdash).
  assert (Hstep : ∀ c t, c ≠ "."%char →
    PyStr.contains (String c "") id = false →
    PyStr.contains (String c "") suffix = false →
    PyStr.first_part (PyStr.split c (id +:+ suffix +:+ String "." t))
    = id +:+ suffix +:+ String "." (PyStr.first_part (PyStr.split c t))).
  { intros c t Hc Hcid Hcsuf.
    rewrite first_part_app_nosep by done. rewrite first_part_app_nosep by done.
    rewrite first_part_split_cons.
    by destruct (Ascii.eqb_spec "." c) as [<-|_]. }
  assert (Hsq : PyStr.contains "?" suffix = false ∧ PyStr.contains "#" suffix = false).
  { unfold thumbnail_suffixes in Hsuf.
    repeat (apply elem_of_cons in Hsuf as [->|Hsuf]);
      try (by apply elem_of_nil in Hsuf); by split. }
  destruct Hsq as [Hsq Hsf].
  rewrite (Hstep "?"%char) by done. rewrite (Hstep "#"%char) by done.
  rewrite (replace_marker "-mobile") by (done || set_solver).
  set (s1 := if String.eqb suffix "-mobile" then "" else suffix).
  assert (Hs1 : s1 ∈ thumbnail_suffixes).
  { unfold s1, thumbnail_suffixes. destruct (String.eqb suffix "-mobile"); set_solver. }
  rewrite (replace_marker "-silent") by (done || set_solver).
  set (s2 := if String.eqb s1 "-silent" then "" else s1).
  assert (Hs2 : s2 ∈ thumbnail_suffixes).
  { unfold s2, thumbnail_suffixes. destruct (String.eqb s1 "-silent"); set_solver. }
  rewrite (replace_marker "-large") by (done || set_solver).
  assert ((if String.eqb s2 "-large" then "" else s2) = "") as ->.
  { unfold s2, s1, thumbnail_suffixes in *.
    repeat (apply elem_of_cons in Hsuf as [->|Hsuf]);
      try (by apply elem_of_nil in Hsuf); reflexivity. }
  rewrite string_app_nil_l, first_part_app_sep.
  by rewrite split_without_sep.
Qed.

(** X4: a link whose last segment is a plain id
    (no "/", "?", "#", "." or "-"), an optional size marker "-mobile",
    "-silent" or "-large", a "." and any slash-free rest yields exactly the
    id as name. *)
Theorem extract_file_name_of_thumbnail (pre id suffix tail : string) :
  plain_name id = true → suffix ∈ thumbnail_suffixes →
  PyStr.contains "/" tail = false →
  extract_file_name (pre +:+ "/" +:+ id +:+ suffix +:+ "." +:+ tail) = id.
Proof.
  intros Hid Hsuf Htail. rewrite extract_file_name_of_parts.
  change ("/" +:+ id +:+ suffix +:+ "." +:+ tail)
    with (String "/" (id +:+ suffix +:+ String "." tail)).
  rewrite contains_char_app, contains_char_cons.
  destruct (Ascii.ascii_dec "/" "/"); [|done]. rewrite orb_true_r.
  rewrite last_part_app_sep.
  assert (PyStr.contains "/" (id +:+ suffix +:+ String "." tail) = false) as Hseg.
  { rewrite !contains_char_app, contains_char_cons_ne, Htail by discriminate.
    destruct (plain_name_spec id Hid) as (-> & _).
    unfold thumbnail_suffixes in Hsuf.
    repeat (apply elem_of_cons in Hsuf as [->|Hsuf]);
      try (by apply elem_of_nil in Hsuf); reflexivity. }
  rewrite (split_without_sep _ _ Hseg). cbn [PyStr.last_part List.last].
  by apply strip_segment.
Qed.

Lemma extract_file_name_of_thumbnail_witness :
  extract_file_name
    ("https://thumbs.example.com" +:+ "/" +:+ "AbcXyz123" +:+ "-mobile" +:+ "."
       +:+ "jpg?w=200")
  = "AbcXyz123".
Proof.
  apply (extract_file_name_of_thumbnail "https://thumbs.example.com" "AbcXyz123"
           "-mobile" "jpg?w=200").
  - reflexivity.
  - unfold thumbnail_suffixes. set_solver.
  - reflexivity.
Defined.

(** X5: the name derived from the API URL that
    [build_real_url] builds for a plain name is that name again. *)
Theorem extract_file_name_of_real_url (name : string) :
  plain_name name = true →
  extract_file_name (build_real_url name) = name.
Proof.
  intros Hname. unfold build_real_url. rewrite extract_file_name_of_parts.
  change ("https://api.redgifs.com/v2/gifs/" +:+ PyStr.lower name
            +:+ "/files/" +:+ name +:+ ".mp4")
    with ("https://api.redgifs.com/v2/gifs/"
            +:+ (PyStr.lower name +:+ ("/files" +:+ String "/" (name +:+ ".mp4")))).
  rewrite <- !string_app_assoc.
  rewrite contains_char_app, contains_char_cons.
  destruct (Ascii.ascii_dec "/" "/"); [|done]. rewrite orb_true_r.
  rewrite last_part_app_sep.
  assert (PyStr.contains "/" (name +:+ ".mp4") = false) as Hseg.
  { rewrite contains_char_app.
    by destruct (plain_name_spec name Hname) as (-> & _). }
  rewrite (split_without_sep _ _ Hseg). cbn [PyStr.last_part List.last].
  change (name +:+ ".mp4") with (name +:+ "" +:+ String "." "mp4").
  apply strip_segment; [done|]. unfold thumbnail_suffixes. set_solver.
Qed.

Lemma extract_file_name_of_real_url_witness :
  extract_file_name (build_real_url "SomeId456") = "SomeId456".
Proof. apply (extract_file_name_of_real_url "SomeId456"). reflexivity. Defined.

(** A link that ends in "/" yields the empty name, so outside mode "s" its
    file is called ".jpg" or ".mp4". *)
Lemma extract_file_name_trailing_slash (pre : string) :
  extract_file_name (pre +:+ "/") = "" ∧
  ∀ m out, m ≠ "s" →
    file_name (save_file_target m out (pre +:+ "/"))
    = if PyStr.contains ".jpg" (pre +:+ "/") then ".jpg" else ".mp4".
Proof.
  assert (Hname : extract_file_name (pre +:+ "/") = "").
  { rewrite extract_file_name_of_parts, contains_char_app, orb_true_r.
    by rewrite (last_part_app_sep "/" pre ""). }
  split; [exact Hname|].
  intros m out Hm. unfold save_file_target.
  rewrite bool_decide_eq_false_2 by exact Hm. rewrite Hname.
  by destruct (PyStr.contains ".jpg" (pre +:+ "/")).
Qed.

(** ** The output directory *)

Lemma truthy_default (t : option string) :
  truthy t = false → PyStr.contains "/" (default "" t) = false.
Proof. by destruct t as [[|c r]|]. Qed.

Lemma get_identifier_some_str (s : string) :
  get_identifier (Some s)
  = if PyStr.contains "/" s
    then Some (PyStr.first_part (PyStr.split "?"
                 (PyStr.last_part (PyStr.split "/" s))))
    else None.
Proof.
  unfold get_identifier. destruct s as [|c r]; [reflexivity|].
  change (truthy (Some (String c r))) with true. cbv iota.
  change (default "" (Some (String c r))) with (String c r).
  cbv zeta. by rewrite split_length_contains.
Qed.

(** X6: [get_identifier] returns [None] exactly when
    no target is given or the target holds no "/" (the empty target
    included). *)
Theorem get_identifier_none_iff (target : option string) :
  get_identifier target = None ↔
  target = None ∨ ∃ s, target = Some s ∧ PyStr.contains "/" s = false.
Proof.
  destruct target as [s|].
  - rewrite get_identifier_some_str. split.
    + intros Hnone. right. exists s. split; [done|].
      by destruct (PyStr.contains "/" s).
    + intros [|(s' & [= <-] & Hs)]; [done|]. by rewrite Hs.
  - split; [by left|reflexivity].
Qed.

Lemma get_identifier_safe (target : option string) (i : string) :
  get_identifier target = Some i →
  PyStr.contains "/" i = false ∧ PyStr.contains "?" i = false.
Proof.
  destruct target as [s|]; [|done]. rewrite get_identifier_some_str.
  destruct (PyStr.contains "/" s); [|done].
  intros [= <-]. split.
  - apply first_part_keeps_absent, last_part_no_sep.
  - apply first_part_no_sep.
Qed.

(** X7: for a target that ends in a segment without
    "/" and "?", with or without a slash-free query string after it, the
    identifier is that segment. *)
Theorem get_identifier_of_page_url (pre seg q : string) :
  PyStr.contains "/" seg = false → PyStr.contains "?" seg = false →
  PyStr.contains "/" q = false →
  get_identifier (Some (pre +:+ "/" +:+ seg)) = Some seg ∧
  get_identifier (Some (pre +:+ "/" +:+ seg +:+ "?" +:+ q)) = Some seg.
Proof.
  intros Hseg Hsegq Hq.
  assert (Hgen : ∀ rest, PyStr.contains "/" rest = false →
    PyStr.first_part (PyStr.split "?" rest) = seg →
    get_identifier (Some (pre +:+ String "/" rest)) = Some seg).
  { intros rest Hrest Hfirst.
    rewrite get_identifier_some_str, contains_char_app, contains_char_cons.
    destruct (Ascii.ascii_dec "/" "/"); [|done].
    rewrite orb_true_r, last_part_app_sep, (split_without_sep _ _ Hrest).
    cbn [PyStr.last_part List.last]. by rewrite Hfirst. }
  split.
  - apply (Hgen seg Hseg). by rewrite split_without_sep.
  - change ("/" +:+ seg +:+ "?" +:+ q) with (String "/" (seg +:+ String "?" q)).
    apply Hgen.
    + by rewrite contains_char_app, contains_char_cons_ne, Hseg, Hq by discriminate.
    + rewrite first_part_app_sep. by rewrite split_without_sep.
Qed.

Lemma get_identifier_of_page_url_witness :
  get_identifier (Some "https://www.redgifs.com/users/someone") = Some "someone" ∧
  get_identifier (Some "https://www.redgifs.com/users/someone?order=new")
  = Some "someone".
Proof.
  apply (get_identifier_of_page_url "https://www.redgifs.com/users" "someone"
           "order=new"); reflexivity.
Defined.

(** X8: outside mode "s" every download path has the form
    output/dir/name.ext with [dir] and [name] free of "/" and [ext] one of
    ".jpg" and ".mp4": files land exactly one directory below the output
    directory ([dir] is empty when there is no identifier). *)
Theorem download_path_shape (output m link : string) (target : option string) :
  m ≠ "s" →
  ∃ dir name ext,
    file_path (save_file_target m
                 (setup_output_directory output (get_identifier target)) link)
    = (output +:+ "/" +:+ dir) +:+ "/" +:+ name +:+ ext ∧
    PyStr.contains "/" dir = false ∧
    PyStr.contains "/" name = false ∧
    ext ∈ [".jpg"; ".mp4"].
Proof.
  intros Hm.
  exists (if truthy (get_identifier target)
          then default "" (get_identifier target) else ""),
         (extract_file_name link),
         (if PyStr.contains ".jpg" link then ".jpg" else ".mp4").
  split; [|split; [|split]].
  - unfold save_file_target, setup_output_directory.
    rewrite bool_decide_eq_false_2 by exact Hm.
    by destruct (PyStr.contains ".jpg" link).
  - destruct (get_identifier target) as [i|] eqn:Hi; [|done].
    destruct (truthy (Some i)); [|done].
    by apply get_identifier_safe in Hi as [? _].
  - unfold extract_file_name.
    destruct (1 <? length (PyStr.split "/" link))%nat; [|done].
    apply first_part_keeps_absent. do 3 apply replace_keeps_absent.
    do 2 apply first_part_keeps_absent. apply last_part_no_sep.
  - destruct (PyStr.contains ".jpg" link); set_solver.
Qed.

Lemma download_path_shape_witness :
  ∃ dir name ext,
    file_path (save_file_target "v"
                 (setup_output_directory "out"
                    (get_identifier (Some "https://www.redgifs.com/users/someone")))
                 sample_link)
    = ("out" +:+ "/" +:+ dir) +:+ "/" +:+ name +:+ ext ∧
    PyStr.contains "/" dir = false ∧
    PyStr.contains "/" name = false ∧
    ext ∈ [".jpg"; ".mp4"].
Proof.
  apply (download_path_shape "out" "v" sample_link
           (Some "https://www.redgifs.com/users/someone")).
  discriminate.
Defined.

(** ** More on the batch partitioner *)

Lemma ceil_div_spec (m b : nat) :
  0 < b → m ≤ b * ceil_div m b ∧ b * ceil_div m b < m + b.
Proof.
  intros Hb. unfold ceil_div.
  pose proof (Nat.div_mod_eq (m + b - 1) b) as Hdm.
  assert (Hub : (m + b - 1) mod b < b) by (apply Nat.mod_upper_bound; lia).
  lia.
Qed.

Lemma length_batch_sizes (m b : nat) :
  0 < b → length (batch_sizes m b) = ceil_div m b.
Proof.
  intros Hb. unfold batch_sizes.
  rewrite length_app, length_replicate.
  pose proof (Nat.div_mod_eq m b) as Hdm.
  assert (Hub : m mod b < b) by (apply Nat.mod_upper_bound; lia).
  destruct (ceil_div_spec m b Hb) as [Hlo Hhi].
  destruct (Nat.eqb_spec (m mod b) 0) as [Hz|Hnz]; simpl; nia.
Qed.

Lemma batch_sizes_bounds (m b : nat) :
  0 < b → Forall (λ n, 1 ≤ n ≤ b) (batch_sizes m b).
Proof.
  intros Hb. unfold batch_sizes. apply Forall_app. split.
  - apply Forall_replicate. lia.
  - assert (m mod b < b) by (apply Nat.mod_upper_bound; lia).
    destruct (Nat.eqb_spec (m mod b) 0); [constructor|].
    repeat constructor; lia.
Qed.

(** All batch sizes but the last are the full size. *)
Lemma batch_sizes_full (m b i n : nat) :
  batch_sizes m b !! i = Some n → S i < length (batch_sizes m b) → n = b.
Proof.
  unfold batch_sizes. intros Hi Hlen.
  rewrite length_app, length_replicate in Hlen.
  rewrite lookup_app_l in Hi.
  - by apply lookup_replicate in Hi as [-> _].
  - rewrite length_replicate.
    destruct (m mod b =? 0)%nat; simpl in Hlen; lia.
Qed.

Lemma ceil_div_0 (t : nat) : 1 ≤ t → ceil_div 0 t = 0.
Proof. intros Ht. unfold ceil_div. apply Nat.div_small. lia. Qed.

Lemma batch_sizes_none (t : nat) :
  1 ≤ t → batch_sizes 0 (ceil_div 0 t) = [].
Proof. intros Ht. by rewrite ceil_div_0. Qed.

Lemma ceil_div_ceil_div_le (m t : nat) :
  1 ≤ t → ceil_div m (ceil_div m t) ≤ t.
Proof.
  intros Ht. destruct (decide (m = 0)) as [->|Hm].
  - rewrite (ceil_div_0 t Ht). unfold ceil_div. simpl. lia.
  - destruct (ceil_div_spec m t) as [Hlo Hhi]; [lia|].
    assert (Hb : 0 < ceil_div m t) by (apply ceil_div_pos; lia).
    destruct (ceil_div_spec m (ceil_div m t) Hb) as [Hlo' Hhi'].
    nia.
Qed.

Lemma ceil_div_small (m t : nat) : 0 < m ≤ t → ceil_div m t = 1.
Proof.
  intros Hm. destruct (ceil_div_spec m t) as [Hlo Hhi]; [lia|]. nia.
Qed.

Lemma elem_of_concat_iff (bs : list (list string)) (x : string) :
  x ∈ concat bs ↔ ∃ b, b ∈ bs ∧ x ∈ b.
Proof.
  induction bs as [|b0 bs IH]; simpl.
  - split; [by intros ?%elem_of_nil|]. by intros (b & ?%elem_of_nil & _).
  - rewrite elem_of_app, IH. split.
    + intros [Hx|(b & Hb & Hx)]; [exists b0|exists b]; split; try done.
      * left.
      * by right.
    + intros (b & Hb & Hx). apply elem_of_cons in Hb as [->|Hb]; [by left|].
      right. by exists b.
Qed.

Section PartitionerMore.

Variable pick : gset string → string.
Hypothesis pick_elem : ∀ s, s ≠ ∅ → pick s ∈ s.

(** What a call returns, for any set of links. *)
Lemma partition_spec (fuel threads_to_use : nat) (s : gset string) :
  1 ≤ threads_to_use → size s ≤ fuel →
  ∃ batches,
    get_captured_links_batches pick fuel threads_to_use s
      = Some (Returns batches, ∅) ∧
    NoDup (concat batches) ∧ list_to_set (concat batches) = s ∧
    length <$> batches
      = batch_sizes (size s) (ceil_div (size s) threads_to_use).
Proof.
  intros Hthreads Hfuel. unfold get_captured_links_batches.
  destruct (Nat.eqb_spec threads_to_use 0); [lia|].
  destruct (decide (size s = 0)) as [Hz|Hnz].
  - exists []. rewrite drain_done by done.
    pose proof (size_0_empty s Hz) as ->.
    rewrite size_empty. repeat split; [constructor|].
    by rewrite ceil_div_0.
  - destruct (drain_spec pick pick_elem fuel (ceil_div (size s) threads_to_use) s [])
      as (bs & Hrun & Hnd & Hset & Hlens); [apply ceil_div_pos; lia|done|].
    exists bs. by rewrite Hrun.
Qed.

(** X9: for any set of links, empty or not, and at least one
    worker, the call returns within [size s] rounds, no link occurs twice in
    the batches, and a link is in some batch exactly when it was in the
    set. *)
Theorem batches_cover (fuel threads_to_use : nat) (s : gset string) :
  1 ≤ threads_to_use → size s ≤ fuel →
  ∃ batches,
    get_captured_links_batches pick fuel threads_to_use s
      = Some (Returns batches, ∅) ∧
    NoDup (concat batches) ∧
    ∀ link, link ∈ s ↔ ∃ b, b ∈ batches ∧ link ∈ b.
Proof.
  intros Hthreads Hfuel.
  destruct (partition_spec fuel threads_to_use s Hthreads Hfuel)
    as (bs & Hrun & Hnd & Hset & _).
  exists bs. split; [done|]. split; [done|].
  intros link. by rewrite <- Hset, elem_of_list_to_set, elem_of_concat_iff.
Qed.

(** X10: the call never returns more batches than
    the thread count it divides by ([THREADS_TO_USE] in the program), and it
    returns no batch at all exactly when there is no link. *)
Theorem batches_at_most_threads (fuel threads_to_use : nat) (s : gset string) :
  1 ≤ threads_to_use → size s ≤ fuel →
  ∃ batches,
    get_captured_links_batches pick fuel threads_to_use s
      = Some (Returns batches, ∅) ∧
    length batches ≤ threads_to_use ∧
    (batches = [] ↔ s = ∅).
Proof.
  intros Hthreads Hfuel.
  destruct (partition_spec fuel threads_to_use s Hthreads Hfuel)
    as (bs & Hrun & Hnd & Hset & Hlens).
  exists bs. split; [done|].
  assert (Hlen : length bs = length (batch_sizes (size s) (ceil_div (size s) threads_to_use)))
    by (by rewrite <- Hlens, length_fmap).
  split.
  - destruct (decide (size s = 0)) as [Hz|Hnz].
    + rewrite Hlen, Hz, batch_sizes_none by done. simpl. lia.
    + rewrite Hlen, length_batch_sizes by (apply ceil_div_pos; lia).
      by apply ceil_div_ceil_div_le.
  - split.
    + intros ->. by rewrite <- Hset.
    + intros ->. rewrite size_empty, batch_sizes_none in Hlen by done.
      by destruct bs.
Qed.

(** X11: no batch is empty or longer than
    [ceil(len / threads)], and every batch but the last has exactly that
    length. *)
Theorem batches_full_but_last (fuel threads_to_use : nat) (s : gset string) :
  1 ≤ threads_to_use → size s ≤ fuel →
  ∃ batches,
    get_captured_links_batches pick fuel threads_to_use s
      = Some (Returns batches, ∅) ∧
    Forall (λ b, 1 ≤ length b ≤ ceil_div (size s) threads_to_use) batches ∧
    ∀ i b, batches !! i = Some b → S i < length batches →
           length b = ceil_div (size s) threads_to_use.
Proof.
  intros Hthreads Hfuel.
  destruct (partition_spec fuel threads_to_use s Hthreads Hfuel)
    as (bs & Hrun & Hnd & Hset & Hlens).
  exists bs. split; [done|].
  destruct (decide (size s = 0)) as [Hz|Hnz].
  { rewrite Hz, batch_sizes_none in Hlens by done.
    apply fmap_nil_inv in Hlens as ->. split; [constructor|]. by intros i b. }
  assert (Hb : 0 < ceil_div (size s) threads_to_use) by (apply ceil_div_pos; lia).
  split.
  - pose proof (batch_sizes_bounds (size s) _ Hb) as Hall.
    rewrite <- Hlens in Hall. by apply Forall_fmap in Hall.
  - intros i b Hi Hlast.
    apply (batch_sizes_full (size s) _ i).
    + rewrite <- Hlens, list_lookup_fmap, Hi. reflexivity.
    + by rewrite <- Hlens, length_fmap.
Qed.

(** X12: with no more links than workers every link gets a
    batch of its own: as many batches as links, each of length 1. *)
Theorem one_link_per_batch (fuel threads_to_use : nat) (s : gset string) :
  1 ≤ threads_to_use → size s ≤ threads_to_use → size s ≤ fuel →
  ∃ batches,
    get_captured_links_batches pick fuel threads_to_use s
      = Some (Returns batches, ∅) ∧
    length batches = size s ∧ Forall (λ b, length b = 1) batches.
Proof.
  intros Hthreads Hsmall Hfuel.
  destruct (partition_spec fuel threads_to_use s) as (bs & Hrun & Hnd & Hset & Hlens);
    [lia|done|].
  exists bs. split; [done|].
  destruct (decide (size s = 0)) as [Hz|Hnz].
  { rewrite Hz, batch_sizes_none in Hlens by done. rewrite Hz.
    apply fmap_nil_inv in Hlens as ->. by split. }
  rewrite ceil_div_small in Hlens by lia.
  unfold batch_sizes in Hlens.
  rewrite Nat.div_1_r, Nat.mod_1_r, app_nil_r in Hlens. simpl in Hlens.
  split.
  - by rewrite <- (length_fmap length), Hlens, length_replicate.
  - assert (Hall : Forall (λ n, n = 1) (replicate (size s) 1))
      by (by apply Forall_replicate).
    rewrite <- Hlens in Hall. by apply Forall_fmap in Hall.
Qed.

End PartitionerMore.

Lemma size_links23 : size links23 = 23.
Proof. vm_compute. reflexivity. Qed.

Lemma batches_cover_witness :
  ∃ batches,
    get_captured_links_batches pick_first 23 THREADS_TO_USE links23
      = Some (Returns batches, ∅) ∧
    NoDup (concat batches) ∧
    ∀ link, link ∈ links23 ↔ ∃ b, b ∈ batches ∧ link ∈ b.
Proof.
  apply (batches_cover pick_first pick_first_elem 23 THREADS_TO_USE links23).
  - unfold THREADS_TO_USE. lia.
  - rewrite size_links23. lia.
Defined.

Lemma batches_at_most_threads_witness :
  ∃ batches,
    get_captured_links_batches pick_first 23 THREADS_TO_USE links23
      = Some (Returns batches, ∅) ∧
    length batches ≤ THREADS_TO_USE ∧
    (batches = [] ↔ links23 = ∅).
Proof.
  apply (batches_at_most_threads pick_first pick_first_elem 23 THREADS_TO_USE links23).
  - unfold THREADS_TO_USE. lia.
  - rewrite size_links23. lia.
Defined.

Lemma batches_full_but_last_witness :
  ∃ batches,
    get_captured_links_batches pick_first 23 THREADS_TO_USE links23
      = Some (Returns batches, ∅) ∧
    Forall (λ b, 1 ≤ length b ≤ ceil_div (size links23) THREADS_TO_USE) batches ∧
    ∀ i b, batches !! i = Some b → S i < length batches →
           length b = ceil_div (size links23) THREADS_TO_USE.
Proof.
  apply (batches_full_but_last pick_first pick_first_elem 23 THREADS_TO_USE links23).
  - unfold THREADS_TO_USE. lia.
  - rewrite size_links23. lia.
Defined.

Lemma one_link_per_batch_witness :
  ∃ batches,
    get_captured_links_batches pick_first 23 30 links23
      = Some (Returns batches, ∅) ∧
    length batches = size links23 ∧ Forall (λ b, length b = 1) batches.
Proof.
  apply (one_link_per_batch pick_first pick_first_elem 23 30 links23).
  - lia.
  - rewrite size_links23. lia.
  - rewrite size_links23. lia.
Defined.

(** ** More on the retrying fetcher *)

Section FetcherMore.

Variable E : env.

Lemma after_requests_1 url w : after_requests 1 url w = add_request url w.
Proof. reflexivity. Qed.

Lemma request_loop_raise n url content w e :
  http_get E (length (requests_sent w)) url = GetRaises e →
  e ≠ RequestException →
  request_loop E (S n) url false content w = (Raises e, add_request url w).
Proof.
  intros Hget Hne. simpl.
  unfold mbind, prog_bind, try_except, requests_get. rewrite Hget.
  by rewrite bool_decide_eq_false_2.
Qed.

(** The three ways a run of the loop can end. *)
Lemma request_loop_inv n : ∀ url content w,
  let base := length (requests_sent w) in
  let failed j := http_get E (base + j) url = GetRaises RequestException in
  (request_loop E n url false content w = (Returns content, after_requests n url w) ∧
   ∀ j, j < n → failed j)
  ∨ (∃ j status body,
       j < n ∧ (∀ i, i < j → failed i) ∧
       http_get E (base + j) url = Response status body ∧
       request_loop E n url false content w
       = (Returns (BytesVal body), after_requests (S j) url w))
  ∨ (∃ j e,
       j < n ∧ (∀ i, i < j → failed i) ∧
       http_get E (base + j) url = GetRaises e ∧ e ≠ RequestException ∧
       request_loop E n url false content w
       = (Raises e, after_requests (S j) url w)).
Proof.
  induction n as [|n IH]; intros url content w base failed.
  { left. split; [by rewrite after_requests_0|]. intros j Hj. lia. }
  assert (Hbase : length (requests_sent (add_request url w)) = S base).
  { unfold add_request. simpl. rewrite length_app. simpl. unfold base. lia. }
  destruct (http_get E base url) as [status body|e] eqn:Hget.
  - right. left. exists 0, status, body.
    repeat split; [lia|intros i Hi; lia|by rewrite Nat.add_0_r|].
    by rewrite (request_loop_response _ _ _ _ _ status body Hget).
  - destruct (decide (e = RequestException)) as [->|Hne].
    + rewrite request_loop_retry by done.
      assert (Hshift : ∀ j, failed (S j) ↔
        http_get E (length (requests_sent (add_request url w)) + j) url
        = GetRaises RequestException).
      { intros j. unfold failed. rewrite Hbase.
        by replace (S base + j) with (base + S j) by lia. }
      assert (Hfail : ∀ k, (∀ i, i < k →
          http_get E (length (requests_sent (add_request url w)) + i) url
          = GetRaises RequestException) → ∀ i, i < S k → failed i).
      { intros k Hk [|i] Hi.
        - unfold failed. by rewrite Nat.add_0_r.
        - apply Hshift, Hk. lia. }
      destruct (IH url content (add_request url w))
        as [[Hrun Hall]|[(j & st & body & Hj & Hpre & Hresp & Hrun)
                        |(j & e & Hj & Hpre & Hexn & Hne & Hrun)]].
      * left. split; [by rewrite Hrun, after_requests_S|]. by apply Hfail.
      * right. left. exists (S j), st, body.
        split; [lia|]. split; [by apply Hfail|]. split.
        { rewrite Hbase in Hresp. by replace (base + S j) with (S base + j) by lia. }
        by rewrite Hrun, after_requests_S.
      * right. right. exists (S j), e.
        split; [lia|]. split; [by apply Hfail|]. split.
        { rewrite Hbase in Hexn. by replace (base + S j) with (S base + j) by lia. }
        split; [done|]. by rewrite Hrun, after_requests_S.
    + right. right. exists 0, e.
      repeat split; [lia|intros i Hi; lia|by rewrite Nat.add_0_r|done|].
      by rewrite (request_loop_raise _ _ _ _ e Hget Hne).
Qed.

(** Every fetch ends after one to five requests, without
    [RequestException]. *)
Lemma fetch_outcome (url : string) (w : world) :
  ∃ k r, 1 ≤ k ≤ MAX_REQUEST_RETRIES ∧
    safely_request_content E url w = (r, after_requests k url w) ∧
    r ≠ Raises RequestException.
Proof.
  unfold safely_request_content.
  destruct (request_loop_inv MAX_REQUEST_RETRIES url (StrVal "") w)
    as [[Hrun _]|[(j & st & body & Hj & _ & _ & Hrun)
                 |(j & e & Hj & _ & _ & Hne & Hrun)]]; rewrite Hrun.
  - exists MAX_REQUEST_RETRIES, (Returns (StrVal "")).
    unfold MAX_REQUEST_RETRIES. by repeat split; [lia..|].
  - exists (S j), (Returns (BytesVal body)). by repeat split; [lia..|].
  - exists (S j), (Raises e). repeat split; [lia..|]. congruence.
Qed.


(** X13: whatever the transport does, one fetch sends at
    least one and at most [MAX_REQUEST_RETRIES] requests, all for the given
    URL, leaves files and statistics alone, and never lets a
    [RequestException] out. *)
Theorem fetch_request_bound (url : string) (w : world) :
  ∃ k, 1 ≤ k ≤ MAX_REQUEST_RETRIES ∧
    (safely_request_content E url w).2 = after_requests k url w ∧
    files (safely_request_content E url w).2 = files w ∧
    downloaded_files_sizes_mb (safely_request_content E url w).2
      = downloaded_files_sizes_mb w ∧
    (safely_request_content E url w).1 ≠ Raises RequestException.
Proof.
  destruct (fetch_outcome url w) as (k & r & Hk & -> & Hr).
  exists k. simpl. repeat split; try done; lia.
Qed.

(** X14: an exception of [requests.get] that is no
    [RequestException] is not retried: when it comes at the [k]-th attempt,
    after [k - 1] connection errors, the fetch raises it after exactly [k]
    requests. *)
Theorem fetch_other_exception (url : string) (w : world) (k : nat) (e : exn) :
  1 ≤ k ≤ MAX_REQUEST_RETRIES → e ≠ RequestException →
  (∀ j, j < k - 1 →
     http_get E (length (requests_sent w) + j) url = GetRaises RequestException) →
  http_get E (length (requests_sent w) + (k - 1)) url = GetRaises e →
  safely_request_content E url w = (Raises e, after_requests k url w).
Proof.
  intros [Hk1 Hk5] Hne Hfail Hexn. unfold safely_request_content.
  replace MAX_REQUEST_RETRIES
    with ((k - 1) + S (MAX_REQUEST_RETRIES - k)) by lia.
  rewrite (request_loop_failures E) by exact Hfail.
  rewrite (request_loop_raise _ _ _ _ e).
  - rewrite add_request_after_requests. by replace (S (k - 1)) with k by lia.
  - unfold after_requests. simpl. rewrite length_app, length_replicate.
    exact Hexn.
  - exact Hne.
Qed.

(** X15: the fetch returns a text string only as
    the empty string of an exhausted budget: then all [MAX_REQUEST_RETRIES]
    attempts raised [RequestException]. *)
Theorem fetch_text_only_if_all_failed (url : string) (w w' : world) (s : string) :
  safely_request_content E url w = (Returns (StrVal s), w') →
  s = "" ∧ w' = after_requests MAX_REQUEST_RETRIES url w ∧
  ∀ j, j < MAX_REQUEST_RETRIES →
    http_get E (length (requests_sent w) + j) url = GetRaises RequestException.
Proof.
  unfold safely_request_content. intros Hrun.
  destruct (request_loop_inv MAX_REQUEST_RETRIES url (StrVal "") w)
    as [[Hrun' Hall]|[(j & st & body & _ & _ & _ & Hrun')
                     |(j & e & _ & _ & _ & _ & Hrun')]];
    rewrite Hrun' in Hrun; [|done..].
  by inversion Hrun.
Qed.

End FetcherMore.

Lemma fetch_other_exception_witness :
  safely_request_content env_broken "u" world0
  = (Raises OtherException, World ∅ [] ["u"; "u"]).
Proof.
  apply (fetch_other_exception env_broken "u" world0 2 OtherException).
  - unfold MAX_REQUEST_RETRIES. lia.
  - discriminate.
  - intros j Hj. simpl in *. destruct j as [|j]; [reflexivity|lia].
  - reflexivity.
Defined.

Lemma fetch_text_only_if_all_failed_witness :
  "" = "" ∧
  World ∅ [] ["u"; "u"; "u"; "u"; "u"] = after_requests MAX_REQUEST_RETRIES "u" world0 ∧
  ∀ j, j < MAX_REQUEST_RETRIES →
    http_get env_offline (length (requests_sent world0) + j) "u"
    = GetRaises RequestException.
Proof.
  apply (fetch_text_only_if_all_failed env_offline "u" world0
           (World ∅ [] ["u"; "u"; "u"; "u"; "u"]) "").
  reflexivity.
Defined.
(** ** More on saving a file *)

Section SaveFileMore.

Variable E : env.



(** X17: whatever happens, [save_file] touches no file but
    its own output path, sends at most [MAX_REQUEST_RETRIES] requests, all to
    its download URL, and adds at most one entry to the statistics; earlier
    entries and requests stay as they were. *)
Theorem save_file_frame (input_ : string) (w : world) :
  let t := save_file_target (mode E) (OUTPUT_DIR E) input_ in
  let w' := (save_file E input_ w).2 in
  (∀ p, p ≠ file_path t → files w' !! p = files w !! p) ∧
  (∃ k, k ≤ MAX_REQUEST_RETRIES ∧
        requests_sent w' = requests_sent w ++ replicate k (true_url t)) ∧
  (downloaded_files_sizes_mb w' = downloaded_files_sizes_mb w ∨
   ∃ mb, downloaded_files_sizes_mb w' = downloaded_files_sizes_mb w ++ [mb]).
Proof.
  intros t w'. unfold w'. rewrite save_file_cases. fold t.
  assert (Hsame :
    (∀ p, p ≠ file_path t → files w !! p = files w !! p) ∧
    (∃ k, k ≤ MAX_REQUEST_RETRIES ∧
          requests_sent w = requests_sent w ++ replicate k (true_url t)) ∧
    (downloaded_files_sizes_mb w = downloaded_files_sizes_mb w ∨
     ∃ mb, downloaded_files_sizes_mb w = downloaded_files_sizes_mb w ++ [mb])).
  { split; [done|]. split; [|by left].
    exists 0. split; [lia|]. by rewrite app_nil_r. }
  case_bool_decide; [exact Hsame|].
  destruct (open_error E (files w) (file_path t)); [exact Hsame|].
  destruct (fetch_outcome E (true_url t) (set_file (file_path t) [] w))
    as (k & r & Hk & -> & Hr).
  assert (Hfiles : ∀ p, p ≠ file_path t →
    <[file_path t := []]> (files w) !! p = files w !! p)
    by (intros p Hp; by rewrite lookup_insert_ne).
  assert (Hreq : ∃ k0, k0 ≤ MAX_REQUEST_RETRIES ∧
    requests_sent w ++ replicate k (true_url t)
    = requests_sent w ++ replicate k0 (true_url t))
    by (exists k; split; [lia|done]).
  assert (Hfiles2 : ∀ body p, p ≠ file_path t →
    <[file_path t := body]> (<[file_path t := []]> (files w)) !! p = files w !! p)
    by (intros body p Hp; by rewrite !lookup_insert_ne).
  destruct r as [[s|body]|e].
  - simpl. split; [done|]. split; [done|by left].
  - cbn [after_requests set_file files].
    destruct (length body <=? buffer_size E)%nat.
    + destruct body as [|b0 body].
      * simpl. split; [done|]. split; [done|right; eauto].
      * destruct (write_error E _ (file_path t)); simpl;
          (split; [by auto|]; split; [done|right; eauto]).
    + destruct (write_error E _ (file_path t)); simpl.
      * split; [done|]. split; [done|by left].
      * split; [by auto|]. split; [done|right; eauto].
  - case_bool_decide; simpl; (split; [done|]; split; [done|by left]).
Qed.


(** X19: once [open] has succeeded the output path
    exists, whatever happens next: a later [save_file] for the same link
    returns [False] at once and changes nothing, even when the first call
    failed or raised. *)
Theorem save_file_not_retried (input_ : string) (w w' : world) (r : result bool) :
  let t := save_file_target (mode E) (OUTPUT_DIR E) input_ in
  save_file E input_ w = (r, w') →
  open_error E (files w) (file_path t) = false →
  save_file E input_ w' = (Returns false, w').
Proof.
  intros t Hrun Hopen.
  assert (Hexists : is_Some (files w' !! file_path t)).
  { revert Hrun. rewrite save_file_cases. fold t.
    case_bool_decide as Hdup; [by intros [= <- <-]|].
    rewrite Hopen.
    destruct (fetch_outcome E (true_url t) (set_file (file_path t) [] w))
      as (k & r0 & Hk & -> & Hr).
    assert (Hcreated : is_Some (<[file_path t := []]> (files w) !! file_path t))
      by (rewrite lookup_insert_eq; eauto).
    assert (Hwritten : ∀ body,
      is_Some (<[file_path t := body]> (<[file_path t := []]> (files w))
                 !! file_path t))
      by (intros body; rewrite lookup_insert_eq; eauto).
    destruct r0 as [[s|body]|e].
    - by intros [= <- <-].
    - cbn [after_requests set_file files].
      destruct (length body <=? buffer_size E)%nat.
      + destruct body as [|b0 body]; [by intros [= <- <-]|].
        destruct (write_error E _ (file_path t)); intros [= <- <-]; [done|].
        apply Hwritten.
      + destruct (write_error E _ (file_path t)); intros [= <- <-]; [done|].
        apply Hwritten.
    - case_bool_decide; by intros [= <- <-]. }
  rewrite save_file_cases. fold t. by rewrite bool_decide_eq_true_2.
Qed.


End SaveFileMore.



Lemma save_file_not_retried_witness :
  save_file env_offline sample_link
    (World {[ "out/SomeId456.mp4" := [] ]} []
           [sample_url; sample_url; sample_url; sample_url; sample_url])
  = (Returns false,
     World {[ "out/SomeId456.mp4" := [] ]} []
           [sample_url; sample_url; sample_url; sample_url; sample_url]).
Proof.
  apply (save_file_not_retried env_offline sample_link world0 _ (Raises TypeError)).
  - vm_compute. reflexivity.
  - reflexivity.
Defined.


(** ** The worker *)

Section WorkerFacts.

Variable E : env.

Lemma save_file_stats_length (input_ : string) (w w' : world) (ok : bool) :
  save_file E input_ w = (Returns ok, w') →
  length (downloaded_files_sizes_mb w')
  = length (downloaded_files_sizes_mb w) + (if ok then 1 else 0).
Proof.
  rewrite save_file_cases.
  set (t := save_file_target (mode E) (OUTPUT_DIR E) input_).
  case_bool_decide; [intros [= <- <-]; lia|].
  destruct (open_error E (files w) (file_path t)); [intros [= <- <-]; lia|].
  destruct (fetch_outcome E (true_url t) (set_file (file_path t) [] w))
    as (k & r0 & Hk & -> & Hr).
  destruct r0 as [[s|body]|e]; [done| |].
  - cbn [after_requests set_file files].
    destruct (length body <=? buffer_size E)%nat.
    + destruct body as [|b0 body]; [|destruct (write_error E _ (file_path t))];
        intros [= <- <-]; simpl; rewrite length_app; simpl; lia.
    + destruct (write_error E _ (file_path t)); intros [= <- <-]; simpl; [lia|].
      rewrite length_app. simpl. lia.
  - case_bool_decide; [|done]. intros [= <- <-]. simpl. lia.
Qed.

Lemma worker_cons (input_ : string) (rest : list string) (w : world) :
  worker E (input_ :: rest) w
  = match save_file E input_ w with
    | (Returns ok, w1) =>
        match worker E rest w1 with
        | (Returns oks, w2) => (Returns (ok :: oks), w2)
        | (Raises e, w2) => (Raises e, w2)
        end
    | (Raises e, w1) => (Raises e, w1)
    end.
Proof.
  simpl. unfold mbind, prog_bind.
  destruct (save_file E input_ w) as [[ok|e] w1]; [|reflexivity].
  by destruct (worker E rest w1) as [[oks|e] w2].
Qed.

(** X21: a worker that comes to its end returns one result per
    link of its batch, and the statistics have grown by exactly as many
    entries as there are [True] among the results. *)
Theorem worker_counts (batch : list string) (w w' : world) (oks : list bool) :
  worker E batch w = (Returns oks, w') →
  length oks = length batch ∧
  length (downloaded_files_sizes_mb w')
  = length (downloaded_files_sizes_mb w) + successes oks.
Proof.
  revert w oks. induction batch as [|f rest IH]; intros w oks.
  - intros [= <- <-]. split; [done|]. unfold successes. simpl. lia.
  - rewrite worker_cons.
    destruct (save_file E f w) as [[ok|e] w1] eqn:Hsave; [|done].
    destruct (worker E rest w1) as [[oks'|e] w2] eqn:Hrest; [|done].
    intros [= <- <-].
    destruct (IH _ _ Hrest) as [Hlen Hstats].
    apply save_file_stats_length in Hsave.
    split; [simpl; lia|].
    rewrite Hstats, Hsave. unfold successes.
    rewrite filter_cons. destruct ok.
    + rewrite decide_True by done. simpl. lia.
    + rewrite decide_False by done. lia.
Qed.

(** X22: on a batch whose output paths all exist
    already, the worker returns [False] for every link and changes nothing:
    no request is sent, no file touched, no size recorded. *)
Theorem worker_skips_existing (batch : list string) (w : world) :
  Forall (λ f, is_Some (files w !! file_path
                          (save_file_target (mode E) (OUTPUT_DIR E) f))) batch →
  worker E batch w = (Returns (replicate (length batch) false), w).
Proof.
  induction 1 as [|f rest Hf Hrest IH]; [reflexivity|].
  rewrite worker_cons, save_file_cases.
  rewrite bool_decide_eq_true_2 by done. by rewrite IH.
Qed.

(** X23: when every request for the first link of a batch
    fails and its file is new and can be opened, the worker ends with
    [TypeError] after the [MAX_REQUEST_RETRIES] requests for that link: the
    empty file stays behind and the rest of the batch is never tried. *)
Theorem worker_network_down (input_ : string) (rest : list string) (w : world) :
  let t := save_file_target (mode E) (OUTPUT_DIR E) input_ in
  files w !! file_path t = None →
  open_error E (files w) (file_path t) = false →
  (∀ i, http_get E i (true_url t) = GetRaises RequestException) →
  worker E (input_ :: rest) w
  = (Raises TypeError,
     World (<[file_path t := []]> (files w)) (downloaded_files_sizes_mb w)
           (requests_sent w ++ replicate MAX_REQUEST_RETRIES (true_url t))).
Proof.
  intros t Hnew Hopen Hdown.
  apply worker_aborts.
  by rewrite (save_file_exhausted_fetch E input_ w Hnew Hopen Hdown).
Qed.

End WorkerFacts.

Lemma worker_counts_witness :
  length [true; false] = length [sample_link; sample_link] ∧
  length (downloaded_files_sizes_mb
            (World {[ "out/SomeId456.mp4" := [Byte.x6e; Byte.x6f] ]}
                   [0 # 1048576]%Q [sample_url; sample_url; sample_url]))
  = length (downloaded_files_sizes_mb world0) + successes [true; false].
Proof.
  apply (worker_counts env_third_404 [sample_link; sample_link] world0).
  vm_compute. reflexivity.
Defined.

Lemma worker_skips_existing_witness :
  worker env_offline [sample_link; sample_link]
    (World {[ "out/SomeId456.mp4" := [Byte.x00] ]} [] [])
  = (Returns (replicate (length [sample_link; sample_link]) false),
     World {[ "out/SomeId456.mp4" := [Byte.x00] ]} [] []).
Proof.
  apply (worker_skips_existing env_offline [sample_link; sample_link]).
  repeat constructor; vm_compute; eauto.
Defined.

Lemma worker_network_down_witness :
  worker env_offline [sample_link; "https://thumbs.example.com/Other.jpg"] world0
  = (Raises TypeError,
     World (<[ file_path (save_file_target "v" "out" sample_link) := [] ]>
              (files world0))
           (downloaded_files_sizes_mb world0)
           (requests_sent world0
              ++ replicate MAX_REQUEST_RETRIES
                   (true_url (save_file_target "v" "out" sample_link)))).
Proof.
  apply (worker_network_down env_offline sample_link
           ["https://thumbs.example.com/Other.jpg"] world0).
  - reflexivity.
  - reflexivity.
  - intros i. reflexivity.
Defined.

(** ** Cues and text-file links *)

Lemma contains_cons (sub : string) (c : ascii) (r : string) :
  PyStr.contains sub (String c r)
  = String.prefix sub (String c r) || PyStr.contains sub r.
Proof. reflexivity. Qed.










Lemma split_str_from_nonempty (sep s : string) :
  ∀ skip, split_str_from skip sep s ≠ [].
Proof.
  induction s as [|c r IH]; intros skip; [done|].
  destruct skip as [|k]; [|apply IH].
  cbn [split_str_from]. destruct (String.prefix sep (String c r)); [done|].
  by destruct (split_str_from 0 sep r).
Qed.

Lemma split_str_scan (sep : string) (c : ascii) (r : string) :
  split_str_from 0 sep (String c r)
  = if String.prefix sep (String c r)
    then "" :: split_str_from (String.length sep - 1) sep r
    else match split_str_from 0 sep r with
         | [] => [String c ""]
         | p :: ps => String c p :: ps
         end.
Proof. reflexivity. Qed.

(** A text without the separator is its own single piece. *)
Lemma split_str_without_sep (sep s : string) :
  PyStr.contains sep s = false → split_str sep s = [s].
Proof.
  unfold split_str. induction s as [|c r IH]; [done|].
  rewrite contains_cons, split_str_scan.
  destruct (String.prefix sep (String c r)); [done|].
  intros Hr. by rewrite (IH Hr).
Qed.

Lemma prefix_app_inv (a : string) :
  ∀ b, String.prefix a b = true → ∃ rest, b = a +:+ rest.
Proof.
  induction a as [|x a IH]; intros b Hpre.
  - exists b. reflexivity.
  - destruct b as [|y b]; [done|]. simpl in Hpre.
    destruct (Ascii.ascii_dec x y) as [->|]; [|done].
    destruct (IH b Hpre) as (rest & ->). by exists rest.
Qed.

Lemma split_str_from_skip (sep pre rest : string) :
  split_str_from (String.length pre) sep (pre +:+ rest)
  = split_str_from 0 sep rest.
Proof. induction pre as [|c pre IH]; [reflexivity|exact IH]. Qed.

Lemma string_length_app (a b : string) :
  String.length (a +:+ b) = String.length a + String.length b.
Proof.
  induction a as [|x a IH]; [reflexivity|].
  rewrite string_app_cons. simpl. by rewrite IH.
Qed.

Lemma concat_cons_cons (sep x y : string) (l : list string) :
  String.concat sep (x :: y :: l) = x +:+ sep +:+ String.concat sep (y :: l).
Proof. reflexivity. Qed.

(** Joining the pieces with the separator gives the text back. *)
Lemma join_split_str (sep : string) :
  sep ≠ "" → ∀ n s, String.length s ≤ n →
  String.concat sep (split_str sep s) = s.
Proof.
  intros Hsep. unfold split_str.
  induction n as [|n IH]; intros s Hlen.
  { destruct s; [reflexivity|simpl in Hlen; lia]. }
  destruct s as [|c r]; [reflexivity|].
  rewrite split_str_scan.
  destruct (String.prefix sep (String c r)) eqn:Hpre.
  - destruct sep as [|x sep']; [done|].
    destruct (prefix_app_inv _ _ Hpre) as (rest & Hrest).
    rewrite string_app_cons in Hrest. injection Hrest as -> ->.
    replace (String.length (String x sep') - 1) with (String.length sep')
      by (simpl; lia).
    rewrite split_str_from_skip.
    pose proof (split_str_from_nonempty (String x sep') rest 0) as Hne.
    destruct (split_str_from 0 (String x sep') rest) as [|p ps] eqn:Hsplit; [done|].
    rewrite concat_cons_cons, <- Hsplit, IH.
    + reflexivity.
    + simpl in Hlen. rewrite string_length_app in Hlen. lia.
  - pose proof (split_str_from_nonempty sep r 0) as Hne.
    assert (Hr : String.concat sep (split_str_from 0 sep r) = r)
      by (apply IH; simpl in Hlen; lia).
    destruct (split_str_from 0 sep r) as [|p ps]; [done|].
    destruct ps as [|q ps].
    + simpl in *. by rewrite Hr.
    + rewrite concat_cons_cons in *. rewrite string_app_cons. by rewrite Hr.
Qed.

Lemma concat_sep_prefixed (sep x : string) (l : list string) :
  String.concat sep (x :: l)
  = x +:+ String.concat "" ((λ piece, sep +:+ piece) <$> l).
Proof.
  revert x. induction l as [|y l IH]; intros x.
  - simpl. by rewrite string_app_nil_r.
  - rewrite concat_cons_cons, IH. rewrite fmap_cons.
    destruct l as [|z l].
    + simpl. by rewrite !string_app_nil_r.
    + rewrite fmap_cons, concat_cons_cons, string_app_nil_l.
      by rewrite <- fmap_cons, string_app_assoc.
Qed.

(** X26: a text that nowhere holds "https://www."
    yields no link at all: links written without "www." or with "http://"
    are dropped silently. *)
Theorem preliminary_links_none (text : string) :
  PyStr.contains "https://www." text = false → preliminary_links text = [].
Proof.
  intros Hno. unfold preliminary_links.
  by rewrite (split_str_without_sep _ _ Hno).
Qed.

Lemma preliminary_links_none_witness :
  preliminary_links "http://redgifs.com/watch/a https://redgifs.com/watch/b" = [].
Proof.
  apply (preliminary_links_none
           "http://redgifs.com/watch/a https://redgifs.com/watch/b").
  reflexivity.
Defined.

(** X27: the links read from a text start with
    "https://www." each, and the text before the first of them followed by
    all the links is the text again: whatever stands between two links
    (blanks and line ends included) stays attached to the earlier one. *)
Theorem preliminary_links_rebuild (text : string) :
  PyStr.first_part (split_str "https://www." text)
    +:+ String.concat "" (preliminary_links text) = text ∧
  Forall (λ link, String.prefix "https://www." link = true)
         (preliminary_links text).
Proof.
  unfold preliminary_links. split.
  - pose proof (join_split_str "https://www." ltac:(done) _ text (le_n _)) as Hjoin.
    pose proof (split_str_from_nonempty "https://www." text 0) as Hne.
    unfold split_str in *.
    destruct (split_str_from 0 "https://www." text) as [|p ps]; [done|].
    by rewrite concat_sep_prefixed in Hjoin.
  - destruct (split_str "https://www." text) as [|p ps]; [constructor|].
    rewrite fmap_cons. cbn [tail]. apply Forall_fmap, Forall_forall.
    intros piece _. simpl. by destruct piece.
Qed.

(** ** The capture stage *)

Section CaptureFacts.

Variable web : site.
Variable E : env.

Lemma foldl_inspect_links (a : Args.t) (dir : string) (tiles : list nat) :
  Args.mode a ≠ "p" → ∀ s,
  foldl (inspect web a dir) s tiles
  = Session (driver s)
            (list_to_set (thumbnail_src web <$> tiles) ∪ captured_links s)
            (find_calls s) (disk s).
Proof.
  intros Hmode. induction tiles as [|t tiles IH]; intros s.
  - simpl. destruct s. simpl. f_equal. set_solver.
  - simpl. rewrite IH. unfold inspect.
    rewrite bool_decide_eq_false_2 by done. simpl. f_equal. set_solver.
Qed.

Lemma foldl_inspect_frame (a : Args.t) (dir : string) (tiles : list nat) :
  ∀ s, driver (foldl (inspect web a dir) s tiles) = driver s ∧
       find_calls (foldl (inspect web a dir) s tiles) = find_calls s.
Proof.
  induction tiles as [|t tiles IH]; intros s; [done|].
  simpl. destruct (IH (inspect web a dir s t)) as [-> ->].
  unfold inspect. by case_bool_decide.
Qed.

Lemma filter_not_in_nil (tiles : list nat) :
  filter (λ t, t ∉ []) tiles = tiles.
Proof.
  induction tiles as [|t tiles IH]; [done|].
  rewrite filter_cons_True by apply not_elem_of_nil. by rewrite IH.
Qed.

Lemma filter_not_in_all (captured tiles : list nat) :
  tiles ⊆ captured → filter (λ t, t ∉ captured) tiles = [].
Proof.
  intros Hsub. induction tiles as [|t tiles IH]; [done|].
  rewrite filter_cons_False.
  - apply IH. intros x Hx. apply Hsub. by right.
  - intros Hnot. apply Hnot, Hsub. left.
Qed.

(** X28: in every mode other than "v", "p", "f"
    and "s" (the mode "t" of the help text is one) [main] gets as far as
    creating the output directory and then ends with [NameError]:
    [webdriver_setup] has not assigned [driver], and
    [capture_content_links] reads it.  No link is captured and nothing is
    requested. *)
Theorem main_unknown_mode_name_error (fuel : nat) (a : Args.t) (s : session) :
  Args.mode a ∉ ["v"; "p"; "f"; "s"] →
  driver s = false →
  makedirs_error web
    (setup_output_directory (Args.output a) (get_identifier (Args.target a)))
    = false →
  main_capture web E fuel a s
  = Some (Crashed NameError s,
          setup_output_directory (Args.output a) (get_identifier (Args.target a))).
Proof.
  intros Hmode Hdriver Hmk. unfold main_capture, webdriver_setup.
  rewrite bool_decide_eq_false_2 by set_solver. rewrite Hmk.
  rewrite !bool_decide_eq_false_2 by set_solver.
  unfold capture_content_links. by rewrite Hdriver.
Qed.

(** X29: outside mode "p", on a loaded page that
    shows some tiles, [capture_content_links] ends after one pass as soon as
    the second query returns as many tiles as the first, whether or not
    they are the same tiles: it has then captured exactly the thumbnails
    of the first answer, with two tile queries. *)
Theorem capture_stops_on_equal_count (a : Args.t) (dir : string) (fuel : nat)
    (url : option string) (s : session) (tiles : list nat) :
  driver s = true → get_error web url = false → Args.mode a ≠ "p" →
  find_tiles web (find_calls s) = tiles → tiles ≠ [] →
  length (find_tiles web (S (find_calls s))) = length tiles →
  1 ≤ fuel →
  capture_content_links web a dir fuel url s
  = Some (Done (Session true
                  (list_to_set (thumbnail_src web <$> tiles) ∪ captured_links s)
                  (2 + find_calls s) (disk s))).
Proof.
  intros Hdriver Hget Hmode Hfirst Hne Hsecond Hfuel.
  unfold capture_content_links. rewrite Hdriver, Hget.
  unfold find_elements at 1. rewrite Hfirst.
  destruct fuel as [|fuel]; [lia|].
  cbn [capture_loop].
  destruct (Nat.eqb_spec (length (@nil nat)) (length tiles)) as [Hlen|_].
  { destruct tiles; [done|]. simpl in Hlen. lia. }
  rewrite filter_not_in_nil, app_nil_l, foldl_inspect_links by done.
  unfold find_elements. cbn [find_calls driver captured_links disk].
  assert (capture_loop web a dir fuel tiles (find_tiles web (S (find_calls s)))
            (Session (driver s)
               (list_to_set (thumbnail_src web <$> tiles) ∪ captured_links s)
               (S (S (find_calls s))) (disk s))
          = Some (Session (driver s)
               (list_to_set (thumbnail_src web <$> tiles) ∪ captured_links s)
               (S (S (find_calls s))) (disk s))) as ->.
  { destruct fuel; cbn [capture_loop]; by rewrite Hsecond, Nat.eqb_refl. }
  by rewrite Hdriver.
Qed.

Lemma capture_loop_stuck (a : Args.t) (dir : string) (captured : list nat) :
  ∀ fuel video s,
  video ⊆ captured → length video < length captured →
  (∀ i, find_calls s ≤ i →
     find_tiles web i ⊆ captured ∧ length (find_tiles web i) < length captured) →
  capture_loop web a dir fuel captured video s = None.
Proof.
  induction fuel as [|fuel IH]; intros video s Hsub Hlen Hlater;
    cbn [capture_loop];
    destruct (Nat.eqb_spec (length captured) (length video)); try lia; [done|].
  rewrite (filter_not_in_all _ _ Hsub), app_nil_r. cbn [foldl].
  unfold find_elements.
  destruct (Hlater (find_calls s) (le_n _)) as [Hsub' Hlen'].
  apply IH; [done|done|].
  intros i Hi. apply Hlater. simpl in Hi. lia.
Qed.

(** X30: when, after the first pass, the
    page only ever shows fewer tiles than that pass captured, all of them
    known already, the loop of [capture_content_links] never ends: no number
    of rounds is enough. *)
Theorem capture_never_ends_on_shrinking_page (a : Args.t) (dir : string)
    (fuel : nat) (url : option string) (s : session) (tiles : list nat) :
  driver s = true → get_error web url = false →
  find_tiles web (find_calls s) = tiles →
  (∀ i, find_calls s < i →
     find_tiles web i ⊆ tiles ∧ length (find_tiles web i) < length tiles) →
  capture_content_links web a dir fuel url s = None.
Proof.
  intros Hdriver Hget Hfirst Hlater.
  unfold capture_content_links. rewrite Hdriver, Hget.
  unfold find_elements at 1. rewrite Hfirst.
  assert (Hne : 0 < length tiles).
  { destruct (Hlater (S (find_calls s))) as [_ Hlt]; lia. }
  assert (capture_loop web a dir fuel [] tiles
            (Session (driver s) (captured_links s) (S (find_calls s)) (disk s))
          = None) as ->; [|done].
  destruct fuel as [|fuel]; cbn [capture_loop];
    destruct (Nat.eqb_spec (length (@nil nat)) (length tiles)) as [Hlen|_];
    try (simpl in Hlen; lia); [done|].
  rewrite filter_not_in_nil, app_nil_l.
  unfold find_elements.
  destruct (foldl_inspect_frame a dir tiles
              (Session (driver s) (captured_links s) (S (find_calls s)) (disk s)))
    as [_ Hcalls].
  rewrite Hcalls. cbn [find_calls].
  destruct (Hlater (S (find_calls s))) as [Hsub Hlt]; [lia|].
  apply capture_loop_stuck; [done|done|].
  intros i Hi. apply Hlater. simpl in Hi. lia.
Qed.

End CaptureFacts.

Lemma main_unknown_mode_name_error_witness :
  main_capture site_shrinking env_offline 7 (sample_args "t") session0
  = Some (Crashed NameError session0,
          setup_output_directory (Args.output (sample_args "t"))
            (get_identifier (Args.target (sample_args "t")))).
Proof.
  apply (main_unknown_mode_name_error site_shrinking env_offline 7
           (sample_args "t") session0).
  - simpl. set_solver.
  - reflexivity.
  - reflexivity.
Defined.

Lemma capture_stops_on_equal_count_witness :
  capture_content_links site_replacing (sample_args "v") "out/someone" 1
    (Args.target (sample_args "v")) (set_driver session0)
  = Some (Done (Session true
                  (list_to_set (thumbnail_src site_replacing <$> [0; 1])
                     ∪ captured_links (set_driver session0))
                  (2 + find_calls (set_driver session0))
                  (disk (set_driver session0)))).
Proof.
  apply (capture_stops_on_equal_count site_replacing (sample_args "v")
           "out/someone" 1 (Args.target (sample_args "v")) (set_driver session0)
           [0; 1]).
  - reflexivity.
  - reflexivity.
  - discriminate.
  - reflexivity.
  - discriminate.
  - reflexivity.
  - lia.
Defined.

Lemma capture_never_ends_on_shrinking_page_witness :
  capture_content_links site_shrinking (sample_args "v") "out/someone" 1000
    (Args.target (sample_args "v")) (set_driver session0)
  = None.
Proof.
  apply (capture_never_ends_on_shrinking_page site_shrinking (sample_args "v")
           "out/someone" 1000 (Args.target (sample_args "v"))
           (set_driver session0) [0; 1]).
  - reflexivity.
  - reflexivity.
  - reflexivity.
  - intros i Hi. simpl in Hi.
    destruct i as [|i]; [lia|]. simpl. split; [set_solver|lia].
Defined.
